(** * memory-lane: the reconciliation core, embedded and verified

    A shallow embedding of the heap reconciliation code of memory-lane
    (conversations/models.py, watcher/heap_assignment.py, the management
    commands and conversations/utils/retry_detection.py).

    Conventions of the embedding.
    - Database tables are lists of rows in insertion order; a primary key is
      a number ([N], standing for a UUID).  A Django model instance that is
      saved right after each assignment is identified with its row.
    - A nullable column is an [option].
    - Python strings are [string]s whose characters are the code points
      0..255.
    - A function that may raise returns a [result]. *)

From stdpp Require Import gmap strings list sorting.
From Stdlib Require Import ZArith Ascii String.

Open Scope string_scope.
Open Scope list_scope.

(** ** conversations/utils/retry_detection.py *)

Module Retry.

(** [str.isspace] on the code points below 256; the same class is what
    [\s] matches in a [str] pattern. *)
Definition isspace (a : ascii) : bool :=
  let n := N_of_ascii a in
  ((9 <=? n) && (n <=? 13) || (28 <=? n) && (n <=? 31)
   || (n =? 32) || (n =? 133) || (n =? 160))%N.

Fixpoint lstrip (l : list ascii) : list ascii :=
  match l with
  | [] => []
  | a :: l' => if isspace a then lstrip l' else l
  end.

Definition strip (l : list ascii) : list ascii :=
  rev (lstrip (rev (lstrip l))).

(** [re.sub(r'\s+', ' ', l)]: every maximal run of whitespace becomes one
    space.  [in_run] records that the previous character was whitespace. *)
Fixpoint sub_ws (in_run : bool) (l : list ascii) : list ascii :=
  match l with
  | [] => []
  | a :: l' =>
      if isspace a
      then (if in_run then sub_ws true l' else " "%char :: sub_ws true l')
      else a :: sub_ws false l'
  end.

Definition normalize_content (content : string) : string :=
  string_of_list_ascii (sub_ws false (strip (list_ascii_of_string content))).

(** [self.last_real_by_sender]: sender name -> (normalized content, id). *)
Abbreviation detector := (gmap string (string * string)).

Definition init : detector := ∅.

(** [is_retry] returns its result together with the detector afterwards. *)
Definition is_retry (self : detector) (sender content : string)
    (is_synthetic_error : bool) : bool * detector :=
  let content_normalized := normalize_content content in
  if is_synthetic_error then (false, self)
  else
    match self !! sender with
    | Some (last_content, _) =>
        if String.eqb content_normalized last_content
        then (true, self)
        else (false, <[sender := (content_normalized, "")]> self)
    | None => (false, <[sender := (content_normalized, "")]> self)
    end.

(** One message of an import stream: (sender, content, is_synthetic_error). *)
Definition msg : Type := string * string * bool.

Definition feed (self : detector) (m : msg) : detector :=
  let '(s, c, e) := m in snd (is_retry self s c e).

(** The detector after the messages [h], fed oldest first. *)
Definition run (h : list msg) : detector := fold_left feed h init.

(** The flags the detector gives to the messages of [h], in order. *)
Fixpoint flags_from (self : detector) (h : list msg) : list bool :=
  match h with
  | [] => []
  | (s, c, e) :: h' =>
      let '(r, self') := is_retry self s c e in r :: flags_from self' h'
  end.

Definition flags (h : list msg) : list bool := flags_from init h.

(** The normalized content of the last real message of [sender] in [h]. *)
Fixpoint last_real (sender : string) (h : list msg) : option string :=
  match h with
  | [] => None
  | (s, c, e) :: h' =>
      match last_real sender h' with
      | Some c' => Some c'
      | None =>
          if negb e && String.eqb s sender
          then Some (normalize_content c) else None
      end
  end.

(** The rule in the words of the specification: the message is a retry when
    the nearest preceding message that is not a synthetic error comes from
    the same sender and has the same normalized content, so that nothing
    but synthetic errors lies in between. *)
Fixpoint spec_is_retry_rev (rev_h : list msg) (sender content : string) : bool :=
  match rev_h with
  | [] => false
  | (s, c, e) :: older =>
      if e then spec_is_retry_rev older sender content
      else String.eqb s sender
           && String.eqb (normalize_content c) (normalize_content content)
  end.

Definition spec_is_retry (h : list msg) (sender content : string) : bool :=
  spec_is_retry_rev (rev h) sender content.

End Retry.

(** ** Exceptions and results *)

Inductive exn :=
| ValueError | TypeError | KeyError | AttributeError | AssertionError
| RuntimeError | UnboundLocalError | IndexError
| DoesNotExist | MultipleObjectsReturned | IntegrityError.

Inductive result (A : Type) :=
| Ok (a : A)
| Raise (e : exn).
Arguments Ok {A} a.
Arguments Raise {A} e.

Global Instance result_ret : MRet result := fun A a => Ok a.
Global Instance result_bind : MBind result := fun A B k r =>
  match r with
  | Ok a => k a
  | Raise e => Raise e
  end.

(** A UUID. *)
Definition UUID : Type := N.
Bind Scope N_scope with UUID.

(** ** conversations/models.py: the tables *)

Inductive ContextHeapType := FRESH | POST_COMPACTING | SPLIT_POINT.

Global Instance ContextHeapType_eq_dec : EqDecision ContextHeapType.
Proof. solve_decision. Defined.

Module ContextHeap.
(** [first_message] is the keyword that [split_heap] passes to
    [ContextHeap.objects.create].  Rows are kept in the order of
    [created_at]. *)
Record t := mk {
  id : UUID;
  era : UUID;
  type : ContextHeapType;
  first_message : option UUID
}.
End ContextHeap.

(** The concrete class of a row of the polymorphic message table. *)
Inductive MessageClass := ClsMessage | ClsThought | ClsToolUse | ClsToolResult.

Global Instance MessageClass_eq_dec : EqDecision MessageClass.
Proof. solve_decision. Defined.

(** One block of the [content] array of a raw event.  A field read with
    [item.get] or [item[...]] is an [option]: [None] is a missing key.  A
    tool input is kept as its JSON text. *)
Inductive ContentItem :=
| ItText (text : option string)
| ItThinking (thinking : option string) (signature : option string)
| ItToolUse (id : option string) (name : option string) (input : option string)
| ItToolResult
| ItImage
| ItOther (type : string).

(** What [parse_command_xml] returns. *)
Inductive ParsedCommand :=
| SlashCommand (command_name command_message command_args raw_xml : string)
| CommandOutput (stdout raw_xml : string)
| PlainText (text : string).

(** The values the importer stores in [Message.content]. *)
Inductive Content :=
| CStr (s : string)
| CItems (items : list ContentItem)
| CToolInput (input : string)
| CToolWithPreamble (tool_input : string) (thinking text : list string)
| CResponse (text : string) (thinking : list string)
| CCommand (parsed : ParsedCommand)
| CCompactBoundary (raw : string).

Module Message.
Record t := mk {
  id : UUID;
  cls : MessageClass;
  message_number : option Z;
  content : Content;
  context_heap : option UUID;
  parent : option UUID;
  looking_for_parent_id : option UUID;
  sender : string;
  recipients : list string;
  session_id : option UUID;
  timestamp : option Z;
  source_file : string;
  is_continuation_message : bool;
  signature : string;
  tool_name : string;
  tool_id : string;
  tool_use_id : string;
  is_error : bool
}.

Definition with_heap (h : option UUID) (m : t) : t :=
  mk (id m) (cls m) (message_number m) (content m) h (parent m)
     (looking_for_parent_id m) (sender m) (recipients m) (session_id m)
     (timestamp m) (source_file m) (is_continuation_message m) (signature m)
     (tool_name m) (tool_id m) (tool_use_id m) (is_error m).

Definition with_number (n : option Z) (m : t) : t :=
  mk (id m) (cls m) n (content m) (context_heap m) (parent m)
     (looking_for_parent_id m) (sender m) (recipients m) (session_id m)
     (timestamp m) (source_file m) (is_continuation_message m) (signature m)
     (tool_name m) (tool_id m) (tool_use_id m) (is_error m).

Definition with_parent (p : option UUID) (m : t) : t :=
  mk (id m) (cls m) (message_number m) (content m) (context_heap m) p
     (looking_for_parent_id m) (sender m) (recipients m) (session_id m)
     (timestamp m) (source_file m) (is_continuation_message m) (signature m)
     (tool_name m) (tool_id m) (tool_use_id m) (is_error m).

Definition with_looking_for_parent_id (p : option UUID) (m : t) : t :=
  mk (id m) (cls m) (message_number m) (content m) (context_heap m) (parent m)
     p (sender m) (recipients m) (session_id m)
     (timestamp m) (source_file m) (is_continuation_message m) (signature m)
     (tool_name m) (tool_id m) (tool_use_id m) (is_error m).

Definition with_recipients (r : list string) (m : t) : t :=
  mk (id m) (cls m) (message_number m) (content m) (context_heap m) (parent m)
     (looking_for_parent_id m) (sender m) r (session_id m)
     (timestamp m) (source_file m) (is_continuation_message m) (signature m)
     (tool_name m) (tool_id m) (tool_use_id m) (is_error m).
End Message.

Module CompactingAction.
(** [compact_boundary_message_id] is the column that [split_heap],
    [has_post_compact_messages] and the split command read. *)
Record t := mk {
  id : UUID;
  context_heap : option UUID;
  ending_message : option UUID;
  looking_for_ending_message : option UUID;
  compact_boundary_message_id : option UUID;
  continuation_message : option UUID;
  compact_trigger : option string;
  pre_compact_tokens : option Z
}.

Definition with_heap (h : option UUID) (c : t) : t :=
  mk (id c) h (ending_message c) (looking_for_ending_message c)
     (compact_boundary_message_id c) (continuation_message c)
     (compact_trigger c) (pre_compact_tokens c).

Definition with_ending_message (e : option UUID) (c : t) : t :=
  mk (id c) (context_heap c) e (looking_for_ending_message c)
     (compact_boundary_message_id c) (continuation_message c)
     (compact_trigger c) (pre_compact_tokens c).

Definition with_looking_for_ending_message (e : option UUID) (c : t) : t :=
  mk (id c) (context_heap c) (ending_message c) e
     (compact_boundary_message_id c) (continuation_message c)
     (compact_trigger c) (pre_compact_tokens c).

Definition with_continuation_message (e : option UUID) (c : t) : t :=
  mk (id c) (context_heap c) (ending_message c) (looking_for_ending_message c)
     (compact_boundary_message_id c) e
     (compact_trigger c) (pre_compact_tokens c).
End CompactingAction.

Module Summary.
Record t := mk {
  id : UUID;
  summary_text : string;
  leaf_message : option UUID;
  looking_for_leaf_message : option UUID
}.
End Summary.

Module DB.
(** The database (PostgreSQL).  Participants are kept by name in the rows
    that refer to them. *)
Record t := mk {
  heaps : list ContextHeap.t;
  messages : list Message.t;
  compacting_actions : list CompactingAction.t;
  summaries : list Summary.t
}.

Definition empty : t := mk [] [] [] [].

Definition with_heaps (hs : list ContextHeap.t) (db : t) : t :=
  mk hs (messages db) (compacting_actions db) (summaries db).
Definition with_messages (ms : list Message.t) (db : t) : t :=
  mk (heaps db) ms (compacting_actions db) (summaries db).
Definition with_compacting_actions (cs : list CompactingAction.t) (db : t) : t :=
  mk (heaps db) (messages db) cs (summaries db).
Definition with_summaries (ss : list Summary.t) (db : t) : t :=
  mk (heaps db) (messages db) (compacting_actions db) ss.
End DB.

(** *** Queries *)

(** [Message.objects.get(id=i)], [None] for [DoesNotExist]. *)
Definition get_message (i : UUID) (db : DB.t) : option Message.t :=
  find (fun m => N.eqb (Message.id m) i) (DB.messages db).

Definition get_heap (i : UUID) (db : DB.t) : option ContextHeap.t :=
  find (fun h => N.eqb (ContextHeap.id h) i) (DB.heaps db).

Definition get_compacting_action (i : UUID) (db : DB.t) : option CompactingAction.t :=
  find (fun c => N.eqb (CompactingAction.id c) i) (DB.compacting_actions db).

(** [heap.messages.all()] *)
Definition heap_messages (h : UUID) (db : DB.t) : list Message.t :=
  filter (fun m => Message.context_heap m = Some h) (DB.messages db).

(** The order of [ORDER BY message_number ASC]: PostgreSQL puts NULL last. *)
Definition number_le (a b : option Z) : bool :=
  match a, b with
  | Some x, Some y => (x <=? y)%Z
  | Some _, None => true
  | None, Some _ => false
  | None, None => true
  end.

Fixpoint insert_by_number (m : Message.t) (l : list Message.t) : list Message.t :=
  match l with
  | [] => [m]
  | x :: l' =>
      if number_le (Message.message_number m) (Message.message_number x)
      then m :: x :: l'
      else x :: insert_by_number m l'
  end.

(** [.order_by('message_number')], and [.order_by('message_number',
    'created_at')] as well: rows are stored in the order of [created_at], and
    the sort keeps that order among equal numbers. *)
Definition order_by_message_number (l : list Message.t) : list Message.t :=
  foldr insert_by_number [] l.

(** [queryset.first()] and [queryset.last()] of an ordered query. *)
Definition first {A} (l : list A) : option A := head l.
Definition last {A} (l : list A) : option A := List.last (map Some l) None.

(** The ordinals of a heap, in ascending order. *)
Definition ordinals (h : UUID) (db : DB.t) : list (option Z) :=
  map Message.message_number (order_by_message_number (heap_messages h db)).

(** The ordinal invariant: the ordinals of the heap are exactly 1..n for its
    n messages. *)
Definition ordinal_invariant (h : UUID) (db : DB.t) : Prop :=
  ordinals h db = map Some (seqZ 1 (Z.of_nat (List.length (heap_messages h db)))).

Global Instance ordinal_invariant_dec h db : Decision (ordinal_invariant h db).
Proof. unfold ordinal_invariant. apply _. Defined.

(** [CompactingAction.objects.filter(context_heap=h)] *)
Definition heap_compacting_actions (h : UUID) (db : DB.t) : list CompactingAction.t :=
  filter (fun c => CompactingAction.context_heap c = Some h) (DB.compacting_actions db).

(** *** Fresh keys

    [uuid.uuid4()] is a key that occurs nowhere in the database: here, the
    successor of the largest key in use. *)
Definition opt_key (o : option UUID) : UUID := default 0%N o.

Definition keys_in_use (db : DB.t) : list UUID :=
  map ContextHeap.id (DB.heaps db)
  ++ map Message.id (DB.messages db)
  ++ map (fun m => opt_key (Message.context_heap m)) (DB.messages db)
  ++ map CompactingAction.id (DB.compacting_actions db)
  ++ map (fun c => opt_key (CompactingAction.context_heap c)) (DB.compacting_actions db)
  ++ map Summary.id (DB.summaries db).

Definition uuid4 (db : DB.t) : UUID :=
  N.succ (foldr N.max 0%N (keys_in_use db)).

(** *** Writes *)

(** [ContextHeap.objects.create(era=, type=, first_message=)] *)
Definition create_heap (era : UUID) (type : ContextHeapType)
    (first_message : option UUID) (db : DB.t) : UUID * DB.t :=
  let i := uuid4 db in
  (i, DB.with_heaps (DB.heaps db ++ [ContextHeap.mk i era type first_message]) db).

(** [unique_together = [['context_heap', 'message_number']]]: another row
    with the same heap and the same number, neither being NULL. *)
Definition number_taken (m : Message.t) (db : DB.t) : bool :=
  match Message.context_heap m, Message.message_number m with
  | Some h, Some n =>
      existsb (fun x => negb (N.eqb (Message.id x) (Message.id m))
                        && bool_decide (Message.context_heap x = Some h)
                        && bool_decide (Message.message_number x = Some n))
              (DB.messages db)
  | _, _ => false
  end.

Definition replace_message (m : Message.t) (l : list Message.t) : list Message.t :=
  map (fun x => if N.eqb (Message.id x) (Message.id m) then m else x) l.

(** [message.save()]: the row with this key is updated, or inserted when
    there is none. *)
Definition save_message (m : Message.t) (db : DB.t) : result DB.t :=
  if number_taken m db then Raise IntegrityError
  else
    match get_message (Message.id m) db with
    | Some _ => Ok (DB.with_messages (replace_message m (DB.messages db)) db)
    | None => Ok (DB.with_messages (DB.messages db ++ [m]) db)
    end.

(** The one-to-one columns of a CompactingAction: another row with the same
    heap, or with the same ending message. *)
Definition link_taken (c : CompactingAction.t) (db : DB.t) : bool :=
  existsb (fun x => negb (N.eqb (CompactingAction.id x) (CompactingAction.id c))
             && (match CompactingAction.context_heap c with
                 | Some h => bool_decide (CompactingAction.context_heap x = Some h)
                 | None => false
                 end
                 || match CompactingAction.ending_message c with
                    | Some e => bool_decide (CompactingAction.ending_message x = Some e)
                    | None => false
                    end))
          (DB.compacting_actions db).

Definition replace_compacting_action (c : CompactingAction.t)
    (l : list CompactingAction.t) : list CompactingAction.t :=
  map (fun x => if N.eqb (CompactingAction.id x) (CompactingAction.id c) then c else x) l.

(** [compacting_action.save()]: update, or insert when there is no such row. *)
Definition save_compacting_action (c : CompactingAction.t) (db : DB.t) : result DB.t :=
  if link_taken c db then Raise IntegrityError
  else
    match get_compacting_action (CompactingAction.id c) db with
    | Some _ =>
        Ok (DB.with_compacting_actions
              (replace_compacting_action c (DB.compacting_actions db)) db)
    | None =>
        Ok (DB.with_compacting_actions (DB.compacting_actions db ++ [c]) db)
    end.

(** [CompactingAction.objects.create(...)] *)
Definition create_compacting_action (c : CompactingAction.t) (db : DB.t) : result DB.t :=
  if link_taken c db then Raise IntegrityError
  else Ok (DB.with_compacting_actions (DB.compacting_actions db ++ [c]) db).


(** *** ContextHeap.add_event, for a Message *)

Definition add_event (self : UUID) (event : Message.t) (db : DB.t)
    : result (Message.t * DB.t) :=
  next_number ←
    match last (order_by_message_number (heap_messages self db)) with
    | Some last_message =>
        match Message.message_number last_message with
        | Some n => Ok (n + 1)%Z
        | None => Raise TypeError
        end
    | None => Ok 1%Z
    end;
  let event := Message.with_number (Some next_number)
                 (Message.with_heap (Some self) event) in
  db ← save_message event db;
  Ok (event, db).

(** [message.parent]: the row the foreign key points to. *)
Definition parent_of (m : Message.t) (db : DB.t) : result (option Message.t) :=
  match Message.parent m with
  | None => Ok None
  | Some p =>
      match get_message p db with
      | Some pm => Ok (Some pm)
      | None => Raise DoesNotExist
      end
  end.

(** ** watcher/heap_assignment.py *)

Definition assign_heap_to_message (message : Message.t) (era : UUID)
    (current_heap : option UUID) (db : DB.t) : result (UUID * DB.t) :=
  match Message.context_heap message with
  | Some _ => Raise ValueError
  | None =>
      parent ← parent_of message db;
      match parent ≫= Message.context_heap with
      | Some parent_heap =>
          (* Rule 1: has parent with heap -> use parent's heap *)
          let message := Message.with_heap (Some parent_heap) message in
          db ← save_message message db;
          Ok (parent_heap, db)
      | None =>
          if Message.is_continuation_message message then
            (* Rule 2: is continuation message -> create POST_COMPACTING heap *)
            let '(heap, db) := create_heap era POST_COMPACTING None db in
            '(_, db) ← add_event heap message db;
            Ok (heap, db)
          else
            match parent with
            | None =>
                (* Rule 3: no parent -> create FRESH heap *)
                let '(heap, db) := create_heap era FRESH None db in
                '(_, db) ← add_event heap message db;
                Ok (heap, db)
            | Some _ =>
                (* Rule 4: parent exists but has no heap *)
                match current_heap with
                | Some current_heap =>
                    '(_, db) ← add_event current_heap message db;
                    Ok (current_heap, db)
                | None =>
                    let '(heap, db) := create_heap era FRESH None db in
                    '(_, db) ← add_event heap message db;
                    Ok (heap, db)
                end
            end
      end
  end.

(** ** conversations/models.py: CompactingAction *)


(** [message_number__gt=b] *)
Definition number_gt (b : Z) (m : Message.t) : bool :=
  match Message.message_number m with
  | Some n => (b <? n)%Z
  | None => false
  end.

(** [Message.objects.filter(context_heap_id=h, message_number__gt=b)] *)
Definition messages_after (h : UUID) (b : Z) (db : DB.t) : list Message.t :=
  filter (fun m => Message.context_heap m = Some h /\ number_gt b m = true)
         (DB.messages db).




(** *** Deleting a heap

    [heap.delete()] cascades along the foreign keys declared with
    [models.CASCADE]: to the messages of the heap, from a message to its
    children, and to the CompactingAction of the heap.  The columns declared
    with [models.SET_NULL] are set to NULL. *)

(** A reference to a deleted message becomes NULL. *)
Definition set_null (dead : list UUID) (o : option UUID) : option UUID :=
  match o with
  | Some i => if bool_decide (i ∈ dead) then None else Some i
  | None => None
  end.

(** The keys of the messages deleted with the messages [dead]: a message
    goes when its parent goes. *)
Fixpoint cascade (fuel : nat) (dead : list UUID) (ms : list Message.t) : list UUID :=
  match fuel with
  | O => dead
  | S fuel =>
      let more :=
        filter (fun m => (Message.id m ∉ dead)
                         /\ set_null dead (Message.parent m) ≠ Message.parent m) ms in
      match more with
      | [] => dead
      | _ => cascade fuel (dead ++ map Message.id more) ms
      end
  end.

Definition delete_heap (h : UUID) (db : DB.t) : DB.t :=
  let ms := DB.messages db in
  let dead := cascade (List.length ms) (map Message.id (heap_messages h db)) ms in
  DB.mk
    (filter (fun x => ContextHeap.id x ≠ h) (DB.heaps db))
    (filter (fun m => Message.id m ∉ dead) ms)
    (map (fun c =>
            CompactingAction.with_continuation_message
              (set_null dead (CompactingAction.continuation_message c))
              (CompactingAction.with_ending_message
                 (set_null dead (CompactingAction.ending_message c)) c))
         (filter (fun c => CompactingAction.context_heap c ≠ Some h)
                 (DB.compacting_actions db)))
    (map (fun s => Summary.mk (Summary.id s) (Summary.summary_text s)
                     (set_null dead (Summary.leaf_message s))
                     (Summary.looking_for_leaf_message s))
         (DB.summaries db)).

(** ** management/commands/repair_parent_chains.py: merge_connected_heaps *)

(** [aggregate(Max('message_number'))['message_number__max'] or 0] *)
Definition max_message_number (l : list Message.t) : Z :=
  default 0%Z
    (foldr (fun m acc =>
              match Message.message_number m, acc with
              | Some n, Some a => Some (Z.max n a)
              | Some n, None => Some n
              | None, _ => acc
              end) None l).

(** The inner loop: every message of the child heap, in ordinal order, gets
    the next number of the parent heap.
    [msg.save(update_fields=['context_heap', 'message_number'])] writes
    the two columns of a row whose other columns have not changed since the
    query. *)
Fixpoint move_messages (parent_heap : UUID) (max_num : Z) (l : list Message.t)
    (db : DB.t) : result DB.t :=
  match l with
  | [] => Ok db
  | msg :: l' =>
      let max_num := (max_num + 1)%Z in
      db ← save_message
             (Message.with_number (Some max_num)
                (Message.with_heap (Some parent_heap) msg)) db;
      move_messages parent_heap max_num l' db
  end.

(** The state of the loop over the heaps: the database, [heaps_to_delete]
    and [merged]. *)
Definition merge_state : Type := DB.t * list UUID * nat.

(** The body of [for heap in heaps]. *)
Definition merge_heap (dry_run : bool) (heap : ContextHeap.t) (st : merge_state)
    : result merge_state :=
  let '(db, heaps_to_delete, merged) := st in
  match first (order_by_message_number (heap_messages (ContextHeap.id heap) db)) with
  | None => Ok st
  | Some first_msg =>
      match Message.parent first_msg with
      | None => Ok st
      | Some parent_id =>
          match get_message parent_id db with
          | None => Ok st
          | Some parent_msg =>
              match Message.context_heap parent_msg ≫= (fun i => get_heap i db) with
              | None => Ok st
              | Some parent_heap =>
                  if bool_decide (ContextHeap.id parent_heap ≠ ContextHeap.id heap)
                     && bool_decide (ContextHeap.type parent_heap = FRESH)
                  then
                    if dry_run then Ok (db, heaps_to_delete, S merged)
                    else
                      let max_num :=
                        max_message_number
                          (heap_messages (ContextHeap.id parent_heap) db) in
                      db ← move_messages (ContextHeap.id parent_heap) max_num
                             (order_by_message_number
                                (heap_messages (ContextHeap.id heap) db)) db;
                      Ok (db, heaps_to_delete ++ [ContextHeap.id heap], S merged)
                  else Ok st
              end
          end
      end
  end.

Fixpoint merge_heaps (dry_run : bool) (heaps : list ContextHeap.t) (st : merge_state)
    : result merge_state :=
  match heaps with
  | [] => Ok st
  | heap :: heaps' =>
      st ← merge_heap dry_run heap st;
      merge_heaps dry_run heaps' st
  end.

(** [if era_id: filters['era_id'] = era_id] *)
Definition in_era (era_id : option UUID) (h : ContextHeap.t) : bool :=
  match era_id with
  | Some e => N.eqb (ContextHeap.era h) e
  | None => true
  end.

(** [merge_connected_heaps] returns the database and the number of merges. *)
Definition merge_connected_heaps (era_id : option UUID) (dry_run : bool) (db : DB.t)
    : result (DB.t * nat) :=
  let heaps :=
    filter (fun h => ContextHeap.type h = FRESH /\ in_era era_id h = true)
           (DB.heaps db) in
  '(db, heaps_to_delete, merged) ← merge_heaps dry_run heaps (db, [], O);
  let db := if dry_run then db else foldl (fun db h => delete_heap h db) db heaps_to_delete in
  Ok (db, merged).

(** ** management/commands/split_heaps_at_compacts.py *)









(** ** importers_and_parsers/claude_code_v2.py *)

(** [event['message']['content']]: a string or an array of blocks. *)
Inductive RawContent :=
| RStr (s : string)
| RItems (items : list ContentItem).

Module Event.
(** One line of a Claude Code JSONL file, decoded.  [timestamp] is what
    [extract_timestamp] returns; [top_content], [is_error] and
    [tool_use_id] are the keys the importer reads with [event.get] at the
    top level of the line; [trigger] and [preTokens] are read from
    [compactMetadata]. *)
Record t := mk {
  type : string;
  subtype : option string;
  uuid : option UUID;
  parentUuid : option UUID;
  logicalParentUuid : option UUID;
  userType : string;
  role : string;
  content : RawContent;
  timestamp : option Z;
  trigger : option string;
  preTokens : option Z;
  top_content : option string;
  is_error : option bool;
  tool_use_id : option string;
  summary : string;
  leafUuid : option UUID
}.
End Event.

(** The event types of [Message.detect_event_type_claude_code_v2]. *)
Inductive EventType :=
| ET_summary | ET_compact_boundary | ET_local_command | ET_file_history_snapshot
| ET_command | ET_command_result_success | ET_uncertain_message
| ET_tool_use_with_preamble | ET_thought_out_response
| ET_continuation | ET_caveat | ET_regular_message
| ET_thought | ET_tool_use | ET_tool_result
| EVENT_TYPE_WE_DO_NOT_HANDLE_YET.

Definition startswith (prefix s : string) : bool := String.prefix prefix s.

(** [item['type']] *)
Definition item_type (i : ContentItem) : string :=
  match i with
  | ItText _ => "text"
  | ItThinking _ _ => "thinking"
  | ItToolUse _ _ _ => "tool_use"
  | ItToolResult => "tool_result"
  | ItImage => "image"
  | ItOther t => t
  end.

(** [d[key]] on a key that may be missing. *)
Definition item {A} (o : option A) : result A :=
  match o with
  | Some a => Ok a
  | None => Raise KeyError
  end.

Definition detect_event_type_claude_code_v2 (event : Event.t) : result EventType :=
  if String.eqb (Event.type event) "summary" then Ok ET_summary
  else if String.eqb (Event.type event) "system" then
    match Event.subtype event with
    | None => Raise KeyError
    | Some subtype =>
        if String.eqb subtype "compact_boundary" then Ok ET_compact_boundary
        else if negb (String.eqb subtype "") then Ok ET_local_command
        else Raise RuntimeError
    end
  else if String.eqb (Event.type event) "file-history-snapshot"
  then Ok ET_file_history_snapshot
  else
    match Event.content event with
    | RStr content =>
        if startswith "<command" content then Ok ET_command
        else if startswith "<local-command-stdout" content
        then Ok ET_command_result_success
        else Ok ET_uncertain_message
    | RItems [] => Raise IndexError
    | RItems (first_content :: rest) =>
        if String.eqb (item_type first_content) "image"
        then Ok EVENT_TYPE_WE_DO_NOT_HANDLE_YET
        else
          match List.last (map Some rest) None with
          | Some last_content =>
              (* len(content) > 1 *)
              if String.eqb (item_type last_content) "tool_use"
              then Ok ET_tool_use_with_preamble
              else if String.eqb (item_type last_content) "text"
              then Ok ET_thought_out_response
              else Raise RuntimeError
          | None =>
              match first_content with
              | ItText text =>
                  text ← item text;
                  if startswith "This session is being continued" text
                  then Ok ET_continuation
                  else if startswith
                            "Caveat: The messages below were generated by the user" text
                  then Ok ET_caveat
                  else if startswith "<command" text then Ok ET_command
                  else if startswith "<local-command-stdout" text
                  then Ok ET_command_result_success
                  else Ok ET_regular_message
              | ItThinking _ _ => Ok ET_thought
              | ItToolUse _ _ _ => Ok ET_tool_use
              | ItToolResult => Ok ET_tool_result
              | _ => Raise AssertionError
              end
          end
    end.

(** *** parse_command_xml *)

(** The lazy group of [re.search(open + '(.+?)' + close)] matched at the
    head of [s]: the shortest text, of at least [min] characters, that is
    followed by [close].  Without [re.DOTALL] the dot does not match a
    newline. *)
Fixpoint lazy_group (dotall : bool) (close : string) (min : nat)
    (s : string) : option string :=
  match min with
  | O =>
      if String.prefix close s then Some EmptyString
      else
        match s with
        | EmptyString => None
        | String c s' =>
            if negb dotall && Ascii.eqb c "010"%char then None
            else String c <$> lazy_group dotall close O s'
        end
  | S _ =>
      match s with
      | EmptyString => None
      | String c s' =>
          if negb dotall && Ascii.eqb c "010"%char then None
          else String c <$> lazy_group dotall close O s'
      end
  end.

Fixpoint drop_string (n : nat) (s : string) : string :=
  match n, s with
  | S n, String _ s' => drop_string n s'
  | _, _ => s
  end.

(** [re.search]: the match at the leftmost position. *)
Fixpoint search_group (dotall : bool) (open close : string) (min : nat)
    (s : string) : option string :=
  match (if String.prefix open s
         then lazy_group dotall close min (drop_string (String.length open) s)
         else None) with
  | Some g => Some g
  | None =>
      match s with
      | EmptyString => None
      | String _ s' => search_group dotall open close min s'
      end
  end.

Definition str_strip (s : string) : string :=
  string_of_list_ascii (Retry.strip (list_ascii_of_string s)).

Definition parse_command_xml (text : string) : ParsedCommand :=
  match search_group false "<command-name>" "</command-name>" 1 text with
  | Some command_name =>
      SlashCommand command_name
        (default "" (search_group false "<command-message>" "</command-message>" 1 text))
        (default "" (str_strip <$>
           search_group true "<command-args>" "</command-args>" 0 text))
        text
  | None =>
      match search_group true "<local-command-stdout>" "</local-command-stdout>" 0 text with
      | Some stdout => CommandOutput stdout text
      | None => PlainText text
      end
  end.

(** *** Lookups with [get] *)

(** [Model.objects.get(...)] inside [try: ... except DoesNotExist]: no row
    is [None], several rows raise. *)
Definition objects_get {A} (l : list A) : result (option A) :=
  match l with
  | [] => Ok None
  | [a] => Ok (Some a)
  | _ => Raise MultipleObjectsReturned
  end.

(** *** handle_summary *)

Definition handle_summary (event : Event.t) (db : DB.t)
    : result (Summary.t * bool * DB.t) :=
  leaf_uuid ← item (Event.leafUuid event);
  let leaf_message := get_message leaf_uuid db in
  found ←
    match leaf_message with
    | Some m =>
        objects_get (filter (fun s => Summary.leaf_message s = Some (Message.id m))
                            (DB.summaries db))
    | None =>
        objects_get (filter (fun s => Summary.looking_for_leaf_message s = Some leaf_uuid)
                            (DB.summaries db))
    end;
  match found with
  | Some summary =>
      (* an orphaned Summary whose message exists now would be linked here;
         a Summary found with [leaf_message] set is never in that state *)
      Ok (summary, false, db)
  | None =>
      let summary :=
        match leaf_message with
        | Some m => Summary.mk (uuid4 db) (Event.summary event) (Some (Message.id m)) None
        | None => Summary.mk (uuid4 db) (Event.summary event) None (Some leaf_uuid)
        end in
      Ok (summary, true, DB.with_summaries (DB.summaries db ++ [summary]) db)
  end.

(** *** Message.set_parent_id *)

Definition set_parent_id (self : Message.t) (parent_id : UUID) (db : DB.t)
    : result (Message.t * DB.t) :=
  let self :=
    match get_message parent_id db with
    | Some parent => Message.with_parent (Some (Message.id parent)) self
    | None => Message.with_looking_for_parent_id (Some parent_id) self
    end in
  db ← save_message self db;
  Ok (self, db).

(** *** CompactingActionManager.get_or_create_by_id_or_message

    The CompactingAction that is returned is the instance in memory: when
    an orphan is linked, its [context_heap] is assigned but the save writes
    only [ending_message] and [looking_for_ending_message]. *)
Definition get_or_create_by_id_or_message (id_or_message : option UUID)
    (compact_trigger : option string) (pre_compact_tokens : option Z) (db : DB.t)
    : result (CompactingAction.t * bool * DB.t) :=
  match id_or_message with
  | None => Raise TypeError
  | Some message_id =>
      let message := get_message message_id db in
      by_fk ←
        match message with
        | Some m =>
            objects_get
              (filter (fun c => CompactingAction.ending_message c = Some (Message.id m))
                      (DB.compacting_actions db))
        | None => Ok None
        end;
      compacting_action ←
        match by_fk with
        | Some c => Ok (Some c)
        | None =>
            objects_get
              (filter (fun c => CompactingAction.looking_for_ending_message c
                                = Some message_id)
                      (DB.compacting_actions db))
        end;
      '(compacting_action, created, db) ←
        match compacting_action, message with
        | Some c, Some m =>
            let saved :=
              CompactingAction.with_looking_for_ending_message None
                (CompactingAction.with_ending_message (Some (Message.id m)) c) in
            db ← save_compacting_action saved db;
            Ok (CompactingAction.with_heap (Message.context_heap m) saved, false, db)
        | Some c, None => Ok (c, false, db)
        | None, _ =>
            let c :=
              match message with
              | Some m =>
                  CompactingAction.mk (uuid4 db) (Message.context_heap m)
                    (Some (Message.id m)) None None None
                    compact_trigger pre_compact_tokens
              | None =>
                  CompactingAction.mk (uuid4 db) None None (Some message_id) None None
                    compact_trigger pre_compact_tokens
              end in
            db ← create_compacting_action c db;
            Ok (c, true, db)
        end;
      match CompactingAction.ending_message compacting_action,
            CompactingAction.context_heap compacting_action with
      | Some _, None => Raise AssertionError
      | _, _ => Ok (compacting_action, created, db)
      end
  end.

(** *** import_line_from_claude_code_v2 *)

(** What the importer hands back: a message of some class, a
    CompactingAction, a Summary, or the marker of an unhandled line. *)
Inductive imported :=
| ImpMessage (m : Message.t)
| ImpCompactingAction (c : CompactingAction.t)
| ImpSummary (s : Summary.t)
| ImpNotHandled.

(** [cls.objects.get_or_create(id=msg_uuid, defaults=...)].  The manager of
    a subclass sees only the rows of that class; inserting a key that another
    class holds fails. *)
Definition get_or_create (defaults : Message.t) (db : DB.t)
    : result (Message.t * bool * DB.t) :=
  match get_message (Message.id defaults) db with
  | Some m =>
      if bool_decide (Message.cls defaults = ClsMessage)
         || bool_decide (Message.cls m = Message.cls defaults)
      then Ok (m, false, db)
      else Raise IntegrityError
  | None => Ok (defaults, true, DB.with_messages (DB.messages db ++ [defaults]) db)
  end.

(** [message.recipients.add(p)] *)
Definition recipients_add (p : string) (m : Message.t) (db : DB.t) : Message.t * DB.t :=
  if bool_decide (p ∈ Message.recipients m) then (m, db)
  else
    let m := Message.with_recipients (Message.recipients m ++ [p]) m in
    (m, DB.with_messages (replace_message m (DB.messages db)) db).

(** A new row as [get_or_create] builds it from [defaults]. *)
Definition new_message (id : UUID) (cls : MessageClass) (content : Content)
    (sender source_file : string) (timestamp : option Z) : Message.t :=
  Message.mk id cls None content None None None sender [] None timestamp
             source_file false "" "" "" "" false.

Definition with_continuation (m : Message.t) : Message.t :=
  Message.mk (Message.id m) (Message.cls m) (Message.message_number m)
    (Message.content m) (Message.context_heap m) (Message.parent m)
    (Message.looking_for_parent_id m) (Message.sender m) (Message.recipients m)
    (Message.session_id m) (Message.timestamp m) (Message.source_file m) true
    (Message.signature m) (Message.tool_name m) (Message.tool_id m)
    (Message.tool_use_id m) (Message.is_error m).

Definition with_signature (sig : string) (m : Message.t) : Message.t :=
  Message.mk (Message.id m) (Message.cls m) (Message.message_number m)
    (Message.content m) (Message.context_heap m) (Message.parent m)
    (Message.looking_for_parent_id m) (Message.sender m) (Message.recipients m)
    (Message.session_id m) (Message.timestamp m) (Message.source_file m)
    (Message.is_continuation_message m) sig (Message.tool_name m)
    (Message.tool_id m) (Message.tool_use_id m) (Message.is_error m).

Definition with_tool (name id : string) (m : Message.t) : Message.t :=
  Message.mk (Message.id m) (Message.cls m) (Message.message_number m)
    (Message.content m) (Message.context_heap m) (Message.parent m)
    (Message.looking_for_parent_id m) (Message.sender m) (Message.recipients m)
    (Message.session_id m) (Message.timestamp m) (Message.source_file m)
    (Message.is_continuation_message m) (Message.signature m) name id
    (Message.tool_use_id m) (Message.is_error m).

Definition with_tool_result (tool_use_id : string) (is_error : bool) (m : Message.t)
    : Message.t :=
  Message.mk (Message.id m) (Message.cls m) (Message.message_number m)
    (Message.content m) (Message.context_heap m) (Message.parent m)
    (Message.looking_for_parent_id m) (Message.sender m) (Message.recipients m)
    (Message.session_id m) (Message.timestamp m) (Message.source_file m)
    (Message.is_continuation_message m) (Message.signature m)
    (Message.tool_name m) (Message.tool_id m) tool_use_id is_error.

(** [event['message']['content']] where the code indexes it as an array. *)
Definition content_items (event : Event.t) : result (list ContentItem) :=
  match Event.content event with
  | RItems l => Ok l
  | RStr _ => Raise TypeError
  end.

(** [preamble['thinking']] and [preamble['text']] of the blocks before the
    last one. *)
Definition preamble_thinking (items : list ContentItem) : list string :=
  omap (fun i => match i with
                 | ItThinking t _ => Some (default "" t)
                 | _ => None
                 end) items.

Definition preamble_text (items : list ContentItem) : list string :=
  omap (fun i => match i with
                 | ItText t => Some (default "" t)
                 | _ => None
                 end) items.

(** [content_items[:-1]] *)
Definition but_last {A} (l : list A) : list A := removelast l.

(** The branch of an event type: the row to create, the recipient, and
    whether the recipient is added also when the row existed. *)
Definition message_defaults (event_type : EventType) (event : Event.t)
    (msg_uuid : UUID) (filename username : string)
    : result (Message.t * string * bool) :=
  let user := username in
  let magent := "magent" in
  let timestamp := Event.timestamp event in
  let assistant_external :=
    String.eqb (Event.type event) "assistant"
    && String.eqb (Event.userType event) "external" in
  let user_external :=
    String.eqb (Event.type event) "user"
    && String.eqb (Event.userType event) "external" in
  match event_type with
  | ET_thought =>
      content ← content_items event;
      match content with
      | ItThinking _ (Some signature) :: _ =>
          Ok (with_signature signature
                (new_message msg_uuid ClsThought (CItems content) magent filename
                             timestamp),
              magent, false)
      | _ => Raise KeyError
      end
  | ET_tool_use =>
      if negb assistant_external then Raise AssertionError
      else
        content ← content_items event;
        match content with
        | ItToolUse id name input :: _ =>
            Ok (with_tool (default "" name) (default "" id)
                  (new_message msg_uuid ClsToolUse (CToolInput (default "{}" input))
                               magent filename timestamp),
                default "unknown-tool" name, false)
        | _ => Raise AttributeError
        end
  | ET_tool_use_with_preamble =>
      if negb assistant_external then Raise AssertionError
      else
        content ← content_items event;
        match List.last (map Some content) None with
        | Some (ItToolUse id name input) =>
            Ok (with_tool (default "" name) (default "" id)
                  (new_message msg_uuid ClsToolUse
                     (CToolWithPreamble (default "{}" input)
                        (preamble_thinking (but_last content))
                        (preamble_text (but_last content)))
                     magent filename timestamp),
                default "unknown-tool" name, false)
        | _ => Raise AttributeError
        end
  | ET_thought_out_response =>
      if negb (assistant_external || user_external) then Raise AssertionError
      else
        content ← content_items event;
        match List.last (map Some content) None with
        | Some (ItText (Some final_text)) =>
            Ok (new_message msg_uuid ClsMessage
                  (CResponse final_text (preamble_thinking (but_last content)))
                  magent filename timestamp,
                user, false)
        | _ => Raise KeyError
        end
  | ET_tool_result =>
      Ok (with_tool_result (default "" (Event.tool_use_id event))
            (default false (Event.is_error event))
            (new_message msg_uuid ClsToolResult
               (CStr (default "" (Event.top_content event)))
               "tool-result" filename timestamp),
          magent, false)
  | ET_continuation =>
      content ← content_items event;
      Ok (with_continuation
            (new_message msg_uuid ClsMessage (CItems content) magent filename timestamp),
          user, false)
  | ET_regular_message =>
      content ← content_items event;
      if String.eqb (Event.role event) "user" then
        Ok (new_message msg_uuid ClsMessage (CItems content) user filename timestamp,
            magent, false)
      else if String.eqb (Event.role event) "assistant" then
        Ok (new_message msg_uuid ClsMessage (CItems content) magent filename timestamp,
            user, false)
      else Raise AssertionError
  | ET_uncertain_message =>
      match Event.content event with
      | RStr content =>
          if String.eqb (Event.role event) "user" then
            Ok (new_message msg_uuid ClsMessage (CStr content) user filename timestamp,
                magent, false)
          else Raise AssertionError
      | RItems _ => Raise AssertionError
      end
  | ET_caveat =>
      content ← content_items event;
      match content with
      | [ItText (Some text)] =>
          Ok (new_message msg_uuid ClsMessage (CStr text) magent filename timestamp,
              magent, true)
      | [_] => Raise KeyError
      | _ => Raise AssertionError
      end
  | ET_command | ET_command_result_success =>
      let text_content :=
        match Event.content event with
        | RStr content => Ok content
        | RItems [] => Ok ""
        | RItems (ItText text :: _) => Ok (default "" text)
        | RItems _ => Ok ""
        end in
      text_content ← text_content;
      let parsed_content := parse_command_xml text_content in
      let '(sender, recipient) :=
        match parsed_content with
        | SlashCommand _ _ _ _ => (user, "SlashCommand")
        | CommandOutput _ _ => ("stdout", user)
        | PlainText _ => (magent, magent)
        end in
      Ok (new_message msg_uuid ClsMessage (CCommand parsed_content) sender filename
                      timestamp,
          recipient, false)
  | ET_local_command =>
      Ok (new_message msg_uuid ClsMessage (CStr (default "" (Event.top_content event)))
                      "system" filename timestamp,
          user, false)
  | _ => Raise AssertionError
  end.

Definition import_line_from_claude_code_v2 (event : Event.t) (era : UUID)
    (filename username : string) (db : DB.t) : result (imported * bool * DB.t) :=
  event_type ← detect_event_type_claude_code_v2 event;
  match event_type with
  | EVENT_TYPE_WE_DO_NOT_HANDLE_YET => Ok (ImpNotHandled, false, db)
  | ET_summary =>
      '(summary, created, db) ← handle_summary event db;
      Ok (ImpSummary summary, created, db)
  | ET_compact_boundary =>
      _ ← item (Event.uuid event);
      '(compacting_action, created, db) ←
        get_or_create_by_id_or_message (Event.logicalParentUuid event)
          (Event.trigger event) (Event.preTokens event) db;
      Ok (ImpCompactingAction compacting_action, created, db)
  | ET_file_history_snapshot =>
      (* event['uuid'] was set from event['messageId'] *)
      Ok (ImpNotHandled, false, db)
  | _ =>
      msg_uuid ← item (Event.uuid event);
      '(defaults, recipient, always_add) ←
        message_defaults event_type event msg_uuid filename username;
      '(message, created, db) ← get_or_create defaults db;
      let '(message, db) :=
        if created || always_add then recipients_add recipient message db
        else (message, db) in
      '(message, db) ←
        match Event.parentUuid event with
        | Some apparent_parent_id => set_parent_id message apparent_parent_id db
        | None => Ok (message, db)
        end;
      Ok (ImpMessage message, created, db)
  end.

(** ** management/commands/import_claude_code_jsonl.py: the loop of handle *)

(** What the loop writes to its output, as far as heaps and
    CompactingActions go. *)
Inductive import_report :=
| CreatedHeap (heap : UUID) (type : ContextHeapType) (message : UUID)
| AlreadyMarkedCompacted (heap : UUID)
| NotTheHeapWeAreOn
| CompactingActionEndedHeap (ca heap : UUID)
| CompactingActionWithoutHeap (ca : UUID)
| ContinuationAlreadyLinked (message ca : UUID)
| DifferentContinuation (ca existing new : UUID)
| LinkedContinuation (message ca : UUID).

Module Run.
(** The state of one run of the importer: the database, the attributes of
    the command object and the local variables of [handle] that live across
    lines.  [heaps_marked_for_multiple_compaction] is an attribute that only
    [handle_directory] sets: [None] is the attribute missing.  [heap] is a
    local variable that is bound by its first assignment: [None] is unbound,
    [Some None] is the value None.  [last_compact] is the instance in memory,
    which is not read again from the database.  The import counts, which the
    loop never reads back, are left out. *)
Record t := mk {
  db : DB.t;
  watchlist : gset (option UUID);
  heaps_marked_for_multiple_compaction : option (list UUID);
  heap : option (option UUID);
  last_compact : option CompactingAction.t;
  heaps_created_because_no_parent : list UUID;
  heaps_closed : list UUID;
  lines_processed : nat;
  lines_skipped_unhandled : nat;
  lines_skipped_summary : nat;
  out : list import_report
}.

Definition with_db (d : DB.t) (r : t) : t :=
  mk d (watchlist r) (heaps_marked_for_multiple_compaction r) (heap r)
     (last_compact r) (heaps_created_because_no_parent r) (heaps_closed r)
     (lines_processed r) (lines_skipped_unhandled r) (lines_skipped_summary r) (out r).
Definition with_watchlist (w : gset (option UUID)) (r : t) : t :=
  mk (db r) w (heaps_marked_for_multiple_compaction r) (heap r)
     (last_compact r) (heaps_created_because_no_parent r) (heaps_closed r)
     (lines_processed r) (lines_skipped_unhandled r) (lines_skipped_summary r) (out r).
Definition with_marked (m : option (list UUID)) (r : t) : t :=
  mk (db r) (watchlist r) m (heap r)
     (last_compact r) (heaps_created_because_no_parent r) (heaps_closed r)
     (lines_processed r) (lines_skipped_unhandled r) (lines_skipped_summary r) (out r).
Definition with_heap (h : option (option UUID)) (r : t) : t :=
  mk (db r) (watchlist r) (heaps_marked_for_multiple_compaction r) h
     (last_compact r) (heaps_created_because_no_parent r) (heaps_closed r)
     (lines_processed r) (lines_skipped_unhandled r) (lines_skipped_summary r) (out r).
Definition with_last_compact (c : option CompactingAction.t) (r : t) : t :=
  mk (db r) (watchlist r) (heaps_marked_for_multiple_compaction r) (heap r)
     c (heaps_created_because_no_parent r) (heaps_closed r)
     (lines_processed r) (lines_skipped_unhandled r) (lines_skipped_summary r) (out r).
Definition created_heap (h : UUID) (r : t) : t :=
  mk (db r) (watchlist r) (heaps_marked_for_multiple_compaction r) (heap r)
     (last_compact r) (heaps_created_because_no_parent r ++ [h]) (heaps_closed r)
     (lines_processed r) (lines_skipped_unhandled r) (lines_skipped_summary r) (out r).
Definition closed_heap (h : UUID) (r : t) : t :=
  mk (db r) (watchlist r) (heaps_marked_for_multiple_compaction r) (heap r)
     (last_compact r) (heaps_created_because_no_parent r) (heaps_closed r ++ [h])
     (lines_processed r) (lines_skipped_unhandled r) (lines_skipped_summary r) (out r).
Definition count_line (unhandled summary : nat) (r : t) : t :=
  mk (db r) (watchlist r) (heaps_marked_for_multiple_compaction r) (heap r)
     (last_compact r) (heaps_created_because_no_parent r) (heaps_closed r)
     (S (lines_processed r)) (unhandled + lines_skipped_unhandled r)
     (summary + lines_skipped_summary r) (out r).
Definition write (m : import_report) (r : t) : t :=
  mk (db r) (watchlist r) (heaps_marked_for_multiple_compaction r) (heap r)
     (last_compact r) (heaps_created_because_no_parent r) (heaps_closed r)
     (lines_processed r) (lines_skipped_unhandled r) (lines_skipped_summary r)
     (out r ++ [m]).

(** A run started by [handle_directory]. *)
Definition start (d : DB.t) : t := mk d ∅ (Some []) None None [] [] O O O [].
End Run.

(** How a part of the loop body ends: it falls through to the next
    statement, it executes [continue], or it raises.  The run is the state
    at that point: what was written before an exception stays written. *)
Inductive flow :=
| Fall
| Continue
| Raised (e : exn).

(** A call into the database layer: on an exception the run is as before the
    call. *)
Definition call {A} (r : Run.t) (c : result (A * DB.t))
    (k : A -> Run.t -> Run.t * flow) : Run.t * flow :=
  match c with
  | Ok (a, db) => k a (Run.with_db db r)
  | Raise e => (r, Raised e)
  end.

(** [event.id] *)
Definition imported_id (event : imported) : option UUID :=
  match event with
  | ImpMessage m => Some (Message.id m)
  | ImpCompactingAction c => Some (CompactingAction.id c)
  | ImpSummary s => Some (Summary.id s)
  | ImpNotHandled => None
  end.

(** [event.context_heap] *)
Definition imported_heap (event : imported) : option UUID :=
  match event with
  | ImpMessage m => Message.context_heap m
  | ImpCompactingAction c => CompactingAction.context_heap c
  | _ => None
  end.

(** "Only assign heaps for newly created events": the heap of a new
    message.  The message is returned as [add_event] leaves it. *)
Definition assign_new_message (event : Message.t) (era : UUID) (r : Run.t)
    (k : Message.t -> Run.t -> Run.t * flow) : Run.t * flow :=
  match Message.context_heap event with
  | Some _ => (r, Raised ValueError)
  | None =>
      match parent_of event (Run.db r) with
      | Raise e => (r, Raised e)
      | Ok parent =>
          match parent ≫= Message.context_heap with
          | Some parent_heap =>
              call r (add_event parent_heap event (Run.db r)) k
          | None =>
              if Message.is_continuation_message event then
                let '(heap, db) := create_heap era POST_COMPACTING None (Run.db r) in
                let r := Run.created_heap heap
                           (Run.with_heap (Some (Some heap)) (Run.with_db db r)) in
                call r (add_event heap event (Run.db r)) (fun event r =>
                  k event
                    (Run.with_heap (Some None)
                       (Run.write (CreatedHeap heap POST_COMPACTING (Message.id event)) r)))
              else
                match parent with
                | None =>
                    let '(heap, db) := create_heap era FRESH None (Run.db r) in
                    let r := Run.created_heap heap
                               (Run.with_heap (Some (Some heap)) (Run.with_db db r)) in
                    call r (add_event heap event (Run.db r)) (fun event r =>
                      k event
                        (Run.with_heap (Some None)
                           (Run.write (CreatedHeap heap FRESH (Message.id event)) r)))
                | Some _ => (r, Raised ValueError)
                end
          end
      end
  end.

(** [if event.id in self.watchlist: ...] *)
Definition resolve_watchlist (event : imported) (era : UUID) (r : Run.t)
    : Run.t * flow :=
  if bool_decide (imported_id event ∈ Run.watchlist r) then
    match objects_get
            (filter (fun c => CompactingAction.looking_for_ending_message c
                              = imported_id event)
                    (DB.compacting_actions (Run.db r))) with
    | Raise e => (r, Raised e)
    | Ok None => (r, Raised DoesNotExist)
    | Ok (Some orphan_no_more) =>
        match imported_heap event with
        | None => (r, Raised AttributeError)
        | Some heap_we_can_finally_close =>
            let linked : Run.t * flow :=
              match first (heap_compacting_actions heap_we_can_finally_close (Run.db r)) with
              | Some _ =>
                  match Run.heaps_marked_for_multiple_compaction r with
                  | None => (r, Raised AttributeError)
                  | Some marked =>
                      (Run.write (AlreadyMarkedCompacted heap_we_can_finally_close)
                         (Run.with_marked (Some (marked ++ [heap_we_can_finally_close])) r),
                       Fall)
                  end
              | None =>
                  match save_compacting_action
                          (CompactingAction.with_heap (Some heap_we_can_finally_close)
                             orphan_no_more) (Run.db r) with
                  | Raise e => (r, Raised e)
                  | Ok db =>
                      (Run.closed_heap heap_we_can_finally_close (Run.with_db db r), Fall)
                  end
              end in
            match linked with
            | (r, Fall) =>
                let r := Run.with_watchlist (Run.watchlist r ∖ {[imported_id event]}) r in
                match Run.heap r with
                | None => (r, Raised UnboundLocalError)
                | Some heap =>
                    if bool_decide (heap = Some heap_we_can_finally_close) then
                      let '(heap, db) := create_heap era POST_COMPACTING None (Run.db r) in
                      (Run.created_heap heap
                         (Run.with_heap (Some (Some heap)) (Run.with_db db r)), Fall)
                    else (Run.write NotTheHeapWeAreOn r, Fall)
                end
            | stopped => stopped
            end
        end
    end
  else (r, Fall).

(** [if event.__class__ == CompactingAction: ...] *)
Definition note_compacting_action (compacting_action : CompactingAction.t)
    (created : bool) (r : Run.t) : Run.t * flow :=
  let report (c : CompactingAction.t) (r : Run.t) : Run.t :=
    match CompactingAction.context_heap c with
    | Some h => Run.write (CompactingActionEndedHeap (CompactingAction.id c) h) r
    | None => Run.write (CompactingActionWithoutHeap (CompactingAction.id c)) r
    end in
  match CompactingAction.ending_message compacting_action
        ≫= (fun i => get_message i (Run.db r)) with
  | Some ending_message =>
      let compacting_action :=
        CompactingAction.with_heap (Message.context_heap ending_message)
          (CompactingAction.with_ending_message (Some (Message.id ending_message))
             compacting_action) in
      let r := Run.with_last_compact (Some compacting_action) r in
      match save_compacting_action compacting_action (Run.db r) with
      | Raise e => (r, Raised e)
      | Ok db => (report compacting_action (Run.with_db db r), Fall)
      end
  | None =>
      let r := Run.with_last_compact (Some compacting_action) r in
      match CompactingAction.context_heap compacting_action with
      | None =>
          if created then
            if bool_decide (CompactingAction.looking_for_ending_message compacting_action
                            ∈ Run.watchlist r)
            then (r, Raised AssertionError)
            else
              (report compacting_action
                 (Run.with_watchlist
                    (Run.watchlist r
                     ∪ {[CompactingAction.looking_for_ending_message compacting_action]})
                    r), Fall)
          else (report compacting_action r, Fall)
      | Some _ => (report compacting_action r, Fall)
      end
  end.

(** [if event.__class__ == Message and event.is_continuation_message and
    last_compact is not None: ...]; [last_compact.save()] writes every
    column of the instance in memory. *)
Definition link_continuation (event : Message.t) (r : Run.t) : Run.t * flow :=
  match Run.last_compact r with
  | Some last_compact =>
      if bool_decide (Message.cls event = ClsMessage)
         && Message.is_continuation_message event then
        match CompactingAction.continuation_message last_compact with
        | Some existing =>
            if N.eqb existing (Message.id event)
            then (Run.write (ContinuationAlreadyLinked (Message.id event)
                               (CompactingAction.id last_compact)) r, Fall)
            else
              let r := Run.write (DifferentContinuation (CompactingAction.id last_compact)
                                    existing (Message.id event)) r in
              match get_message existing (Run.db r) with
              | None => (r, Raised DoesNotExist)
              | Some existing_message =>
                  let timestamp_of_ending_message :=
                    (CompactingAction.ending_message last_compact
                     ≫= (fun i => get_message i (Run.db r))) ≫= Message.timestamp in
                  match timestamp_of_ending_message with
                  | Some t =>
                      if (t =? 0)%Z then (r, Fall)
                      else
                        match Message.timestamp existing_message,
                              Message.timestamp event with
                        | Some _, Some _ => (r, Fall)
                        | _, _ => (r, Raised TypeError)
                        end
                  | None => (r, Fall)
                  end
              end
        | None =>
            let last_compact :=
              CompactingAction.with_continuation_message (Some (Message.id event))
                last_compact in
            let r := Run.with_last_compact (Some last_compact) r in
            match save_compacting_action last_compact (Run.db r) with
            | Raise e => (r, Raised e)
            | Ok db =>
                (Run.write (LinkedContinuation (Message.id event)
                              (CompactingAction.id last_compact))
                   (Run.with_db db r), Fall)
            end
        end
      else (r, Fall)
  | None => (r, Fall)
  end.

(** The statements of the loop body after the heap assignment. *)
Definition after_assignment (event : imported) (created : bool) (era : UUID)
    (r : Run.t) : Run.t * flow :=
  match event with
  | ImpCompactingAction c =>
      match resolve_watchlist event era r with
      | (r, Fall) => note_compacting_action c created r
      | stopped => stopped
      end
  | ImpMessage m =>
      match Message.context_heap m with
      | None => (r, Raised AssertionError)
      | Some _ =>
          match resolve_watchlist event era r with
          | (r, Fall) => link_continuation m r
          | stopped => stopped
          end
      end
  | _ => (r, Raised AssertionError)
  end.

(** The body of [for counter, line in enumerate(f)]. *)
Definition process_line (line : Event.t) (era : UUID) (filename : string)
    (r : Run.t) : Run.t * flow :=
  match import_line_from_claude_code_v2 line era filename "justin" (Run.db r) with
  | Raise e => (Run.count_line 0 0 r, Raised e)
  | Ok (event, created, db) =>
      let r := Run.with_db db r in
      match event with
      | ImpNotHandled => (Run.count_line 1 0 r, Continue)
      | ImpSummary _ => (Run.count_line 0 1 r, Continue)
      | ImpMessage m =>
          let r := Run.count_line 0 0 r in
          if created
          then assign_new_message m era r (fun m r =>
                 after_assignment (ImpMessage m) created era r)
          else after_assignment event created era r
      | ImpCompactingAction c =>
          let r := Run.count_line 0 0 r in
          if created then after_assignment event created era r
          else
            match CompactingAction.ending_message c,
                  CompactingAction.looking_for_ending_message c with
            | None, Some _ => (r, Continue)
            | None, None => (r, Raised TypeError)
            | Some _, _ => after_assignment event created era r
            end
      end
  end.

(** The loop over the lines of one file: it stops at the first exception. *)
Fixpoint process_lines (lines : list Event.t) (era : UUID) (filename : string)
    (r : Run.t) : Run.t * option exn :=
  match lines with
  | [] => (r, None)
  | line :: lines' =>
      match process_line line era filename r with
      | (r, Raised e) => (r, Some e)
      | (r, _) => process_lines lines' era filename r
      end
  end.

(** ** Descriptions used in the proofs *)

(** The position of a key in a list of keys. *)
Fixpoint index_of (i : UUID) (l : list UUID) : option nat :=
  match l with
  | [] => None
  | j :: l' => if N.eqb j i then Some O else S <$> index_of i l'
  end.

(** What a renumbering loop makes of a row: the row whose key is at
    position k of [ids] moves to [heap] with the number [start + k]. *)
Definition relabel (heap : UUID) (start : Z) (ids : list UUID) (x : Message.t)
    : Message.t :=
  match index_of (Message.id x) ids with
  | Some k =>
      Message.with_number (Some (start + Z.of_nat k)%Z)
        (Message.with_heap (Some heap) x)
  | None => x
  end.

(** The order of [number_le] as a relation, on numbers and on rows. *)
Definition key_le (a b : option Z) : Prop := number_le a b = true.
Definition row_le (x y : Message.t) : Prop :=
  key_le (Message.message_number x) (Message.message_number y).

(** The primary key of the message table. *)
Definition unique_ids (db : DB.t) : Prop := NoDup (map Message.id (DB.messages db)).

(** ** Example data *)

Definition plain (id : UUID) (number : option Z) (heap parent : option UUID)
    : Message.t :=
  Message.mk id ClsMessage number (CStr "") heap parent None "justin" ["magent"]
             None None "" false "" "" "" "" false.

(** A heap with the ordinals 1 to 5 and a CompactingAction whose boundary
    is the message with ordinal 3. *)
Definition split_example_ca : CompactingAction.t :=
  CompactingAction.mk 50 (Some 100%N) (Some 3%N) None (Some 3%N) None None None.

Definition split_example_db : DB.t :=
  DB.mk [ContextHeap.mk 100 7 FRESH None]
        [plain 1 (Some 1%Z) (Some 100%N) None;
         plain 2 (Some 2%Z) (Some 100%N) (Some 1%N);
         plain 3 (Some 3%Z) (Some 100%N) (Some 2%N);
         plain 4 (Some 4%Z) (Some 100%N) (Some 3%N);
         plain 5 (Some 5%Z) (Some 100%N) (Some 4%N)]
        [split_example_ca] [].

(** A heap that holds a parent at ordinal 1, and a new message, child of
    that parent, as the importer has stored it: no heap, no number. *)
Definition new_child : Message.t := plain 2 None None (Some 1%N).

Definition parent_in_heap_db : DB.t :=
  DB.mk [ContextHeap.mk 100 7 FRESH None]
        [plain 1 (Some 1%Z) (Some 100%N) None; new_child] [] [].




(** The primary key of the CompactingAction table. *)
Definition unique_ca_ids (db : DB.t) : Prop :=
  NoDup (map CompactingAction.id (DB.compacting_actions db)).

(** A compaction marker whose boundary is the message 10, which is not
    stored yet, and the line of message 10. *)
Definition marker_line : Event.t :=
  Event.mk "system" (Some "compact_boundary") (Some 20%N) None (Some 10%N) "external" ""
           (RStr "") (Some 1000%Z) (Some "auto") (Some 150000%Z) None None None "" None.

Definition boundary_message_line : Event.t :=
  Event.mk "user" None (Some 10%N) None None "external" "user"
           (RItems [ItText (Some "please continue")]) (Some 2000%Z)
           None None None None None "" None.

(** The run after the marker and the storing of message 10 in the new heap
    11: CompactingAction 1 is still orphaned and awaits message 10. *)
Definition orphan_example_ca : CompactingAction.t :=
  CompactingAction.mk 1 None None (Some 10%N) None None (Some "auto") (Some 150000%Z).

Definition orphan_example_run : Run.t :=
  Run.mk (DB.mk [ContextHeap.mk 11 7 FRESH None]
                [plain 10 (Some 1%Z) (Some 11%N) None]
                [orphan_example_ca] [])
         {[Some 10%N]} (Some []) (Some None) (Some orphan_example_ca) [11%N] []
         2 0 0 [CompactingActionWithoutHeap 1; CreatedHeap 11 FRESH 10].


(** A user line and a second line with the same identity but another
    sender, timestamp and content. *)
Definition first_line : Event.t :=
  Event.mk "user" None (Some 5%N) None None "external" "user"
           (RItems [ItText (Some "hello")]) (Some 1000%Z)
           None None None None None "" None.





(** The row that the first of the two lines stores, and the database that
    holds it. *)
Definition first_line_message : Message.t :=
  Message.mk 5%N ClsMessage None (CItems [ItText (Some "hello")]) None None None
             "justin" ["magent"] None (Some 1000%Z) "f" false "" "" "" "" false.

Definition first_line_db : DB.t := DB.with_messages [first_line_message] DB.empty.

(** ** More of importers_and_parsers/claude_code_v2.py *)

(** [summary.save(update_fields=['leaf_message', 'looking_for_leaf_message'])] *)
Definition replace_summary (s : Summary.t) (l : list Summary.t) : list Summary.t :=
  map (fun x => if N.eqb (Summary.id x) (Summary.id s) then s else x) l.

(** [handle_summary] with its last statement written out: the [if] that
    links an orphaned Summary once its leaf message is stored.
    [handle_summary] above leaves that statement out. *)
Definition handle_summary_with_link (event : Event.t) (db : DB.t)
    : result (Summary.t * bool * DB.t) :=
  leaf_uuid ← item (Event.leafUuid event);
  let leaf_message := get_message leaf_uuid db in
  found ←
    match leaf_message with
    | Some m =>
        objects_get (filter (fun s => Summary.leaf_message s = Some (Message.id m))
                            (DB.summaries db))
    | None =>
        objects_get (filter (fun s => Summary.looking_for_leaf_message s = Some leaf_uuid)
                            (DB.summaries db))
    end;
  let '(summary, created, db) :=
    match found with
    | Some summary => (summary, false, db)
    | None =>
        let summary :=
          match leaf_message with
          | Some m => Summary.mk (uuid4 db) (Event.summary event) (Some (Message.id m)) None
          | None => Summary.mk (uuid4 db) (Event.summary event) None (Some leaf_uuid)
          end in
        (summary, true, DB.with_summaries (DB.summaries db ++ [summary]) db)
    end in
  match leaf_message with
  | Some m =>
      if negb created
         && bool_decide (Summary.looking_for_leaf_message summary ≠ None)
         && bool_decide (Summary.leaf_message summary = None)
      then
        let summary :=
          Summary.mk (Summary.id summary) (Summary.summary_text summary)
                     (Some (Message.id m)) None in
        Ok (summary, created,
            DB.with_summaries (replace_summary summary (DB.summaries db)) db)
      else Ok (summary, created, db)
  | None => Ok (summary, created, db)
  end.

(** A summary line for the leaf message 5. *)
Definition summary_line : Event.t :=
  Event.mk "summary" None None None None "" "" (RStr "") None
           None None None None None "Summary of the session" (Some 5%N).

(** Where a message is: its key, its heap and its ordinal. *)
Definition placement (m : Message.t) : UUID * option UUID * option Z :=
  (Message.id m, Message.context_heap m, Message.message_number m).

(** ** More of conversations/models.py *)

(** *** Message.sanitize_content *)

(** A JSON value as [json.loads] gives it: None, a bool, a number (by its
    literal), a str, a list, a dict (the items in their order). *)
#[warnings="-register-all"]
Inductive JSON :=
| JNull
| JBool (b : bool)
| JNumber (literal : string)
| JStr (s : string)
| JList (items : list JSON)
| JDict (items : list (string * JSON)).

(** [content.replace('\x00', '')] *)
Fixpoint remove_null_bytes (s : string) : string :=
  match s with
  | EmptyString => EmptyString
  | String a s' =>
      if Ascii.eqb a "000"%char then remove_null_bytes s'
      else String a (remove_null_bytes s')
  end.

Fixpoint sanitize_content (content : JSON) : JSON :=
  match content with
  | JStr s => JStr (remove_null_bytes s)
  | JList items => JList (map sanitize_content items)
  | JDict items => JDict (map (fun '(k, v) => (k, sanitize_content v)) items)
  | _ => content
  end.

(** No null byte in a str value, at any depth.  The keys of a dict are not
    looked at. *)
Fixpoint null_free (content : JSON) : bool :=
  match content with
  | JStr s => forallb (fun a => negb (Ascii.eqb a "000"%char)) (list_ascii_of_string s)
  | JList items => forallb null_free items
  | JDict items => forallb (fun '(_, v) => null_free v) items
  | _ => true
  end.

(** *** ContextHeap.check_timestamps_against_message_numbers *)

(** [curr_msg.timestamp < prev_msg.timestamp]; both are not NULL, by the
    filter of the query. *)
Definition timestamp_lt (curr prev : Message.t) : bool :=
  match Message.timestamp curr, Message.timestamp prev with
  | Some c, Some p => (c <? p)%Z
  | _, _ => false
  end.

(** The loop over [range(1, len(messages_with_timestamps))]. *)
Fixpoint violations (messages_with_timestamps : list Message.t)
    : list (option Z * option Z * option Z * option Z) :=
  match messages_with_timestamps with
  | prev_msg :: (curr_msg :: _) as rest =>
      (if timestamp_lt curr_msg prev_msg
       then [(Message.message_number curr_msg, Message.timestamp curr_msg,
              Message.message_number prev_msg, Message.timestamp prev_msg)]
       else [])
      ++ violations rest
  | _ => []
  end.

(** The result: ['valid'] and ['violations']. *)
Definition check_timestamps_against_message_numbers (self : UUID) (db : DB.t)
    : bool * list (option Z * option Z * option Z * option Z) :=
  let messages_with_timestamps :=
    order_by_message_number
      (filter (fun m => Message.timestamp m ≠ None) (heap_messages self db)) in
  let violations := violations messages_with_timestamps in
  (Nat.eqb (List.length violations) 0, violations).

(** *** Message.highest_known_parent *)

(** The [while True] loop, with the number of rounds it may take: [None]
    is the loop still running after [fuel] rounds. *)
Fixpoint climb (fuel : nat) (parent : Message.t) (db : DB.t)
    : option (result Message.t) :=
  match fuel with
  | O => None
  | S fuel =>
      match parent_of parent db with
      | Raise e => Some (Raise e)
      | Ok None => Some (Ok parent)
      | Ok (Some grandparent) => climb fuel grandparent db
      end
  end.

(** [parent = self.parent] is None for a message without parent, and
    [parent.parent] then raises AttributeError. *)
Definition highest_known_parent (fuel : nat) (self : Message.t) (db : DB.t)
    : option (result Message.t) :=
  match parent_of self db with
  | Raise e => Some (Raise e)
  | Ok None => Some (Raise AttributeError)
  | Ok (Some parent) => climb fuel parent db
  end.

(** The chain of parents from a message up to a message without parent, and
    its length. *)
Inductive parent_chain (db : DB.t) : Message.t -> Message.t -> nat -> Prop :=
| parent_chain_top m :
    Message.parent m = None -> parent_chain db m m 1
| parent_chain_up m p top n :
    Message.parent m = Some (Message.id p) ->
    get_message (Message.id p) db = Some p ->
    parent_chain db p top n ->
    parent_chain db m top (S n).

(** *** ToolUse.get_result and ToolResult.get_tool_use *)

Definition get_result (self : Message.t) (db : DB.t) : result (option Message.t) :=
  objects_get
    (filter (fun r => Message.cls r = ClsToolResult
                      /\ Message.tool_use_id r = Message.tool_id self)
            (DB.messages db)).

Definition get_tool_use (self : Message.t) (db : DB.t) : result (option Message.t) :=
  objects_get
    (filter (fun u => Message.cls u = ClsToolUse
                      /\ Message.tool_id u = Message.tool_use_id self)
            (DB.messages db)).


(** ** watcher/conversation_watcher.py *)

(** [ConversationWatcher._import_line_local]: the line is imported, and a
    message that the line created is given its heap; [self.current_heap] is
    the state that lives across lines. *)
Definition _import_line_local (line : Event.t) (era : UUID)
    (filename username : string) (current_heap : option UUID) (db : DB.t)
    : result (option UUID * DB.t) :=
  '(event, created, db) ←
    import_line_from_claude_code_v2 line era filename username db;
  match event with
  | ImpNotHandled => Ok (current_heap, db)
  | _ =>
      if negb created then Ok (current_heap, db)
      else
        match event with
        | ImpMessage message =>
            '(heap, db) ← assign_heap_to_message message era current_heap db;
            Ok (Some heap, db)
        | _ => Ok (current_heap, db)
        end
  end.

(** ** management/commands/repair_parent_chains.py: finding and planning *)

(** An entry of [find_orphaned_messages]. *)
Module Orphan.
Record t := mk {
  message : Message.t;
  heap : ContextHeap.t;
  looking_for : option UUID
}.
End Orphan.

(** The first message of each FRESH heap that has no parent and is not a
    continuation message. *)
Definition find_orphaned_messages (era_id : option UUID) (db : DB.t) : list Orphan.t :=
  let heaps :=
    filter (fun h => ContextHeap.type h = FRESH /\ in_era era_id h = true)
           (DB.heaps db) in
  omap (fun heap =>
          match first (order_by_message_number
                         (heap_messages (ContextHeap.id heap) db)) with
          | None => None
          | Some first_msg =>
              if bool_decide (Message.parent first_msg = None) then
                if Message.is_continuation_message first_msg then None
                else Some (Orphan.mk first_msg heap
                             (Message.looking_for_parent_id first_msg))
              else None
          end) heaps.

(** An entry of the repair plan: ['action': 'link'] or
    ['action': 'import_and_link']. *)
Inductive repair :=
| RepairLink (message : Message.t) (parent_uuid : UUID) (heap : ContextHeap.t)
| RepairImportAndLink (message : Message.t) (parent_uuid : UUID)
    (parent_jsonl : Event.t * string) (heap : ContextHeap.t).

(** [jsonl_index] maps the identity of a line to its event and its file. *)
Definition create_repair_plan (orphaned_messages : list Orphan.t)
    (jsonl_index : gmap UUID (Event.t * string)) (db : DB.t) : list repair :=
  omap (fun item =>
          let msg := Orphan.message item in
          parent_uuid ←
            match Orphan.looking_for item with
            | Some looking_for => Some looking_for
            | None =>
                jsonl_data ← jsonl_index !! Message.id msg;
                Event.parentUuid jsonl_data.1
            end;
          match get_message parent_uuid db with
          | Some _ => Some (RepairLink msg parent_uuid (Orphan.heap item))
          | None =>
              parent_jsonl ← jsonl_index !! parent_uuid;
              Some (RepairImportAndLink msg parent_uuid parent_jsonl (Orphan.heap item))
          end) orphaned_messages.

(** Heap 200 opens with message 11, which waits for its parent, message 3
    of heap 100. *)
Definition repair_example_db : DB.t :=
  DB.mk [ContextHeap.mk 100 7 FRESH None; ContextHeap.mk 200 7 FRESH None]
        [plain 1 (Some 1%Z) (Some 100%N) None;
         plain 2 (Some 2%Z) (Some 100%N) (Some 1%N);
         plain 3 (Some 3%Z) (Some 100%N) (Some 2%N);
         Message.with_looking_for_parent_id (Some 3%N)
           (plain 11 (Some 1%Z) (Some 200%N) None);
         plain 12 (Some 2%Z) (Some 200%N) (Some 11%N)]
        [] [].

(* ==== THEOREMS ==== *)

(** * Retry detection *)

Section RetryFacts.
Import Retry.

Lemma is_retry_synthetic (d : detector) s c :
  is_retry d s c true = (false, d).
Proof. reflexivity. Qed.

(** What one message does to the baseline of a sender. *)
Lemma feed_lookup (d : detector) s0 c e s :
  fst <$> (feed d (s0, c, e) !! s)
  = if negb e && String.eqb s0 s then Some (normalize_content c)
    else fst <$> (d !! s).
Proof.
  unfold feed, is_retry. destruct e; simpl; [done|].
  destruct (String.eqb_spec s0 s) as [->|Hne].
  - destruct (d !! s) as [[lc i]|] eqn:Hd.
    + destruct (String.eqb_spec (normalize_content c) lc) as [->|_]; simpl.
      * by rewrite Hd.
      * by rewrite lookup_insert_eq.
    + simpl. by rewrite lookup_insert_eq.
  - destruct (d !! s0) as [[lc i]|] eqn:Hd.
    + destruct (String.eqb (normalize_content c) lc); simpl; [done|].
      by rewrite lookup_insert_ne.
    + simpl. by rewrite lookup_insert_ne.
Qed.

Lemma fold_feed_lookup h : forall (d : detector) s,
  fst <$> (fold_left feed h d !! s)
  = match last_real s h with
    | Some c => Some c
    | None => fst <$> (d !! s)
    end.
Proof.
  induction h as [|[[s0 c] e] h IH]; intros d s; simpl; [done|].
  rewrite IH. destruct (last_real s h); [done|].
  pose proof (feed_lookup d s0 c e s) as Hf. simpl in Hf. rewrite Hf.
  by destruct (negb e && String.eqb s0 s).
Qed.

(** The baseline of a sender is the normalized content of the sender's
    last real message. *)
Lemma run_lookup h s : fst <$> (run h !! s) = last_real s h.
Proof.
  unfold run, init. rewrite fold_feed_lookup, lookup_empty.
  by destruct (last_real s h).
Qed.

Lemma is_retry_true_iff (d : detector) s c :
  fst (is_retry d s c false) = true
  <-> fst <$> (d !! s) = Some (normalize_content c).
Proof.
  unfold is_retry. destruct (d !! s) as [[lc i]|]; simpl.
  - destruct (String.eqb_spec (normalize_content c) lc) as [->|Hne]; simpl.
    + done.
    + split; [done|]. intros [= ->]. done.
  - done.
Qed.

End RetryFacts.

(** C8 (as the code has it).  A synthetic-error message is never flagged and
    leaves the detector as it was.  A real message is flagged exactly when
    its normalized content equals the normalized content of the last real
    message of the same sender; what other senders sent in between, real or
    synthetic, plays no part.  On [(A,"hi",false); (B,"err",true);
    (A,"hi",false)] the third message is flagged, and with (A,"bye",false)
    inserted before the third it is not. *)
Theorem C8_is_retry_per_sender :
  (forall (d : Retry.detector) s c, Retry.is_retry d s c true = (false, d))
  /\ (forall h s c,
        fst (Retry.is_retry (Retry.run h) s c false) = true
        <-> Retry.last_real s h = Some (Retry.normalize_content c))
  /\ Retry.flags [("A", "hi", false); ("B", "err", true); ("A", "hi", false)]
     = [false; false; true]
  /\ Retry.flags [("A", "hi", false); ("B", "err", true); ("A", "bye", false);
                  ("A", "hi", false)]
     = [false; false; false; false].
Proof.
  split; [apply is_retry_synthetic|].
  split; [|split; vm_compute; reflexivity].
  intros h s c. rewrite is_retry_true_iff, run_lookup. done.
Qed.

(** C8 as the specification words it fails: after (A,"hi") and a real
    message of B, the message (A,"hi") is flagged by the code, although a
    message that is not a synthetic error lies in between. *)
Lemma C8_counterexample :
  let h := [("A", "hi", false); ("B", "yo", false)] in
  fst (Retry.is_retry (Retry.run h) "A" "hi" false) = true
  /\ Retry.spec_is_retry h "A" "hi" = false.
Proof. split; vm_compute; reflexivity. Qed.

(** C10.  When [is_retry] answers True the detector is left as it was, so
    any further message of that sender with the same normalized content is
    flagged again; and no call changes the baseline of another sender. *)
Theorem C10_retry_frame (d : Retry.detector) (s c : string) (e : bool) :
  (fst (Retry.is_retry d s c e) = true ->
     snd (Retry.is_retry d s c e) = d
     /\ forall c', Retry.normalize_content c' = Retry.normalize_content c ->
          Retry.is_retry (snd (Retry.is_retry d s c e)) s c' false = (true, d))
  /\ (forall s', s' <> s -> snd (Retry.is_retry d s c e) !! s' = d !! s').
Proof.
  unfold Retry.is_retry. split.
  - destruct e; simpl; [done|].
    destruct (d !! s) as [[lc i]|] eqn:Hd; simpl; [|done].
    destruct (String.eqb_spec (Retry.normalize_content c) lc) as [Heq|Hne];
      simpl; [|done].
    intros _. split; [done|]. intros c' Hc'. rewrite Hd, Hc', Heq.
    by rewrite String.eqb_refl.
  - intros s' Hs'. destruct e; simpl; [done|].
    destruct (d !! s) as [[lc i]|]; simpl.
    + destruct (String.eqb _ lc); simpl; [done|]. by rewrite lookup_insert_ne.
    + by rewrite lookup_insert_ne.
Qed.

Lemma C10_retry_frame_witness :
  let d := Retry.run [("A", "hi", false); ("B", "yo", false)] in
  fst (Retry.is_retry d "A" " hi " false) = true
  /\ snd (Retry.is_retry d "A" " hi " false) = d
  /\ snd (Retry.is_retry d "A" " hi " false) !! "B" = d !! "B".
Proof.
  intros d.
  destruct (C10_retry_frame d "A" " hi " false) as [H1 H2].
  assert (Ht : fst (Retry.is_retry d "A" " hi " false) = true)
    by (vm_compute; reflexivity).
  split; [exact Ht|]. split.
  - exact (proj1 (H1 Ht)).
  - apply H2. discriminate.
Defined.

(** * Ordering by message number *)

Section Ordering.

Global Instance key_le_trans : Transitive key_le.
Proof.
  intros [a|] [b|] [c|]; unfold key_le; simpl; try done.
  rewrite !Z.leb_le. lia.
Qed.

Global Instance key_le_antisym : AntiSymm (=) key_le.
Proof.
  intros [a|] [b|]; unfold key_le; simpl; try done.
  rewrite !Z.leb_le. intros. f_equal. lia.
Qed.

Lemma key_le_total a b : key_le a b \/ key_le b a.
Proof.
  destruct a as [a|], b as [b|]; unfold key_le; simpl; auto.
  rewrite !Z.leb_le. lia.
Qed.

Global Instance row_le_trans : Transitive row_le.
Proof. intros x y z. unfold row_le. apply key_le_trans. Qed.

Lemma insert_by_number_perm m l : insert_by_number m l ≡ₚ m :: l.
Proof.
  induction l as [|x l IH]; simpl; [done|].
  destruct (number_le _ _); [done|].
  rewrite IH. apply Permutation_swap.
Qed.

Lemma order_by_message_number_perm l : order_by_message_number l ≡ₚ l.
Proof.
  induction l as [|x l IH]; simpl; [done|].
  rewrite insert_by_number_perm. by rewrite IH.
Qed.

Lemma insert_by_number_sorted m l :
  Sorted row_le l -> Sorted row_le (insert_by_number m l).
Proof.
  induction 1 as [|x l Hl IH Hhd]; simpl.
  - repeat constructor.
  - destruct (number_le (Message.message_number m) (Message.message_number x)) eqn:Hle.
    + constructor; [by constructor|]. by constructor.
    + constructor; [done|].
      assert (row_le x m) as Hxm.
      { destruct (key_le_total (Message.message_number x) (Message.message_number m))
          as [H|H]; [done|]. unfold key_le in H. congruence. }
      destruct l as [|y l]; simpl in *; [by constructor|].
      destruct (number_le (Message.message_number m) (Message.message_number y));
        constructor; [done|]. by inv Hhd.
Qed.

Lemma order_by_message_number_sorted l : Sorted row_le (order_by_message_number l).
Proof.
  induction l as [|x l IH]; simpl; [constructor|].
  by apply insert_by_number_sorted.
Qed.

(** The ordinals of a heap are the sorted list of the numbers of its rows. *)
Lemma ordinals_unique h db ks :
  map Message.message_number (heap_messages h db) ≡ₚ ks ->
  Sorted key_le ks ->
  ordinals h db = ks.
Proof.
  intros Hperm Hks. unfold ordinals.
  apply (Sorted_unique key_le); [|done|].
  - apply (Sorted_fmap _ row_le); [done|]. apply order_by_message_number_sorted.
  - rewrite <-Hperm. apply fmap_Permutation, order_by_message_number_perm.
Qed.

Lemma seqZ_sorted m n : Sorted key_le (map Some (seqZ m n)).
Proof.
  apply (Sorted_fmap _ Z.le).
  - intros x y Hxy. unfold key_le. simpl. by apply Z.leb_le.
  - unfold seqZ. apply (Sorted_fmap _ le); [lia|].
    generalize 0%nat. induction (Z.to_nat n) as [|k IH]; intros s; simpl;
      constructor; [apply IH|].
    destruct k; simpl; constructor. lia.
Qed.

End Ordering.

(** * Rows and keys *)

Section Rows.

Lemma find_id_in (l : list Message.t) m :
  NoDup (map Message.id l) -> m ∈ l ->
  find (fun x => N.eqb (Message.id x) (Message.id m)) l = Some m.
Proof.
  induction l as [|x l IH]; simpl; intros Hnd Hin; [by inv Hin|].
  apply NoDup_cons in Hnd as [Hx Hnd].
  apply elem_of_cons in Hin as [->|Hin].
  - by rewrite N.eqb_refl.
  - destruct (N.eqb_spec (Message.id x) (Message.id m)) as [Heq|Hne].
    + exfalso. apply Hx. rewrite Heq. by apply (list_elem_of_fmap_2 Message.id).
    + by apply IH.
Qed.

Lemma get_message_in db m :
  unique_ids db -> m ∈ DB.messages db -> get_message (Message.id m) db = Some m.
Proof. apply find_id_in. Qed.

Lemma get_message_Some i db m :
  get_message i db = Some m -> m ∈ DB.messages db /\ Message.id m = i.
Proof.
  unfold get_message. intros H. apply find_some in H as [Hin Heq].
  split; [by apply list_elem_of_In|]. by apply N.eqb_eq.
Qed.


Lemma replace_message_ids m l :
  map Message.id (replace_message m l) = map Message.id l.
Proof.
  unfold replace_message. rewrite map_map. apply map_ext_in.
  intros x _. by destruct (N.eqb_spec (Message.id x) (Message.id m)) as [->|].
Qed.

Lemma number_taken_false m db :
  (forall x, x ∈ DB.messages db -> Message.id x ≠ Message.id m ->
             Message.context_heap x = Message.context_heap m ->
             Message.message_number x = Message.message_number m ->
             Message.message_number m = None) ->
  number_taken m db = false.
Proof.
  intros H. unfold number_taken.
  destruct (Message.context_heap m) as [h|] eqn:Hh; [|done].
  destruct (Message.message_number m) as [n|] eqn:Hn; [|done].
  apply not_true_is_false. intros Hex.
  apply existsb_exists in Hex as (x & Hin & Hx).
  apply andb_prop in Hx as [Hx Hnum]. apply andb_prop in Hx as [Hid Hheap].
  apply bool_decide_eq_true in Hnum, Hheap.
  apply negb_true_iff, N.eqb_neq in Hid.
  apply list_elem_of_In in Hin.
  by specialize (H x Hin Hid Hheap Hnum).
Qed.








End Rows.

(** * Lists *)

Section Lists.
Context {A B : Type}.



Lemma filter_keeps_none (P : A -> Prop) `{!forall x, Decision (P x)} (l : list A) :
  Forall (fun x => ~ P x) l -> filter P l = [].
Proof.
  induction 1 as [|x l Hx Hl IH]; [done|].
  rewrite filter_cons_False by done. by rewrite IH.
Qed.


Lemma last_Some_in (l : list A) x : last l = Some x -> x ∈ l.
Proof.
  unfold last. induction l as [|y l IH]; simpl; [done|].
  destruct l as [|z l]; simpl in *.
  - intros [= ->]. left.
  - intros H. right. by apply IH.
Qed.

Lemma last_None (l : list A) : last l = None -> l = [].
Proof.
  unfold last. induction l as [|y l IH]; simpl; [done|].
  destruct l as [|z l]; simpl in *; [done|]. intros H. by specialize (IH H).
Qed.

Lemma find_None_intro (f : A -> bool) (l : list A) :
  (forall x, x ∈ l -> f x = false) -> find f l = None.
Proof.
  induction l as [|x l IH]; intros H; [done|]. simpl.
  rewrite (H x) by left. apply IH. intros y Hy. apply H. by right.
Qed.

End Lists.


(** * Fresh keys *)

Section Fresh.

Lemma foldr_max_ge (k : N) l : k ∈ l -> (k <= foldr N.max 0 l)%N.
Proof.
  induction l as [|x l IH]; intros Hin; [by inv Hin|]. simpl.
  apply elem_of_cons in Hin as [->|Hin]; [lia|].
  specialize (IH Hin). lia.
Qed.

Lemma uuid4_fresh db k : k ∈ keys_in_use db -> k ≠ uuid4 db.
Proof. intros Hin%foldr_max_ge. unfold uuid4. lia. Qed.

Lemma uuid4_no_heap db : get_heap (uuid4 db) db = None.
Proof.
  unfold get_heap. apply find_None_intro. intros h Hh.
  apply N.eqb_neq, uuid4_fresh. unfold keys_in_use.
  apply elem_of_app. left. by apply (list_elem_of_fmap_2 ContextHeap.id).
Qed.

Lemma uuid4_no_message db m :
  m ∈ DB.messages db -> Message.context_heap m ≠ Some (uuid4 db).
Proof.
  intros Hm Hh. apply (uuid4_fresh db (uuid4 db)); [|done].
  unfold keys_in_use. rewrite !elem_of_app. right. right. left.
  apply list_elem_of_fmap. exists m. by rewrite Hh.
Qed.


End Fresh.

(** * Renumbered tables *)

Section Relabel.



Lemma same_id_same_row (T : list Message.t) x y :
  NoDup (map Message.id T) -> x ∈ T -> y ∈ T -> Message.id x = Message.id y -> x = y.
Proof.
  intros Hnd Hx Hy Heq.
  pose proof (find_id_in T x Hnd Hx) as F1.
  pose proof (find_id_in T y Hnd Hy) as F2.
  rewrite Heq in F1. congruence.
Qed.





End Relabel.

(** * Splitting a heap *)

Section Split.


Lemma number_gt_false b m :
  number_gt b m = false
  <-> match Message.message_number m with
      | Some n => (n <= b)%Z
      | None => True
      end.
Proof.
  unfold number_gt. destruct (Message.message_number m); [|done].
  rewrite Z.ltb_ge. done.
Qed.

End Split.

Section SplitHeap.

Variables (ca : CompactingAction.t) (db : DB.t) (h bid : UUID) (bm : Message.t)
          (b : Z) (old_heap : ContextHeap.t).
Hypothesis Huniq : unique_ids db.
Hypothesis Hheap : CompactingAction.context_heap ca = Some h.
Hypothesis Hbid : CompactingAction.compact_boundary_message_id ca = Some bid.
Hypothesis Hbm : get_message bid db = Some bm.
Hypothesis Hb : Message.message_number bm = Some b.
Hypothesis Hb0 : b ≠ 0%Z.
Hypothesis Hold : get_heap h db = Some old_heap.
Hypothesis Hafter : messages_after h b db ≠ [].

Let post := order_by_message_number (messages_after h b db).
Let new := uuid4 db.
Let db' :=
  DB.mk (DB.heaps db ++ [ContextHeap.mk new (ContextHeap.era old_heap) POST_COMPACTING
                                        (Message.id <$> head post)])
        (map (relabel new 1 (map Message.id post)) (DB.messages db))
        (DB.compacting_actions db) (DB.summaries db).











End SplitHeap.



(** * Heap assignment *)

(** C3, at the failing input.  A new message whose parent is in heap 100 at
    ordinal 1 is assigned to heap 100 by [assign_heap_to_message], but its
    ordinal stays unset, where [add_event], which the importer calls in the
    same case, gives it ordinal 2. *)
Theorem C3_rule1_assigns_no_ordinal :
  (exists db',
     assign_heap_to_message new_child 7 None parent_in_heap_db = Ok (100%N, db')
     /\ Message.context_heap <$> get_message 2 db' = Some (Some 100%N)
     /\ Message.message_number <$> get_message 2 db' = Some None)
  /\ (exists m db',
        add_event 100 new_child parent_in_heap_db = Ok (m, db')
        /\ Message.message_number <$> get_message 2 db' = Some (Some 2%Z)).
Proof.
  split.
  - eexists. split; [vm_compute; reflexivity|]. split; reflexivity.
  - eexists _, _. split; [vm_compute; reflexivity|]. reflexivity.
Qed.

(** C2, at the failing input.  Heap 100 satisfies the ordinal invariant;
    after [assign_heap_to_message] has put a second message into it, its
    ordinals are 1 and NULL, and the invariant is lost. *)
Theorem C2_ordinal_invariant_lost_by_assignment :
  ordinal_invariant 100 parent_in_heap_db
  /\ exists db',
       assign_heap_to_message new_child 7 None parent_in_heap_db = Ok (100%N, db')
       /\ List.length (heap_messages 100 db') = 2%nat
       /\ ordinals 100 db' = [Some 1%Z; None]
       /\ ~ ordinal_invariant 100 db'.
Proof.
  split; [apply (bool_decide_unpack _); vm_compute; exact I|].
  eexists. split; [vm_compute; reflexivity|].
  split; [reflexivity|]. split; [reflexivity|].
  apply (bool_decide_eq_false_1 _). vm_compute. reflexivity.
Qed.

(** * Merging heaps *)

Section MaxNumber.

Local Abbreviation max_acc :=
  (foldr (fun m acc =>
            match Message.message_number m, acc with
            | Some n, Some a => Some (Z.max n a)
            | Some n, None => Some n
            | None, _ => acc
            end) None).




End MaxNumber.

Section MergeHeap.

Variables (db : DB.t) (heap Y : ContextHeap.t) (fm pm : Message.t) (pid y : UUID).
Hypothesis Huniq : unique_ids db.
Hypothesis Hfirst :
  first (order_by_message_number (heap_messages (ContextHeap.id heap) db)) = Some fm.
Hypothesis Hparent : Message.parent fm = Some pid.
Hypothesis Hpm : get_message pid db = Some pm.
Hypothesis Hph : Message.context_heap pm = Some y.
Hypothesis HY : get_heap y db = Some Y.
Hypothesis Hne : y ≠ ContextHeap.id heap.

Let x := ContextHeap.id heap.
Let child := order_by_message_number (heap_messages x db).
Let M := max_message_number (heap_messages y db).
Let F := relabel y (M + 1) (map Message.id child).
Let db' := DB.with_messages (map F (DB.messages db)) db.













End MergeHeap.
Section DeleteHeap.





End DeleteHeap.

Section MergeAll.






End MergeAll.



(** * A second CompactingAction for a heap *)

Section Conflict.










End Conflict.




(** * Orphaned CompactingActions and the watchlist *)

Section Watchlist.

Lemma link_taken_unlinked c db :
  CompactingAction.context_heap c = None ->
  CompactingAction.ending_message c = None ->
  link_taken c db = false.
Proof.
  intros Hh He. unfold link_taken. rewrite Hh, He.
  induction (DB.compacting_actions db) as [|x l IH]; [done|]. simpl.
  by rewrite andb_false_r.
Qed.

(** A marker whose boundary message is not stored: a new orphaned
    CompactingAction, and its awaited identity on the watchlist. *)
Lemma process_marker_line line era filename r u bid :
  Event.type line = "system" ->
  Event.subtype line = Some "compact_boundary" ->
  Event.uuid line = Some u ->
  Event.logicalParentUuid line = Some bid ->
  get_message bid (Run.db r) = None ->
  filter (fun c => CompactingAction.looking_for_ending_message c = Some bid)
         (DB.compacting_actions (Run.db r)) = [] ->
  Some bid ∉ Run.watchlist r ->
  Some (uuid4 (Run.db r)) ∉ Run.watchlist r ->
  let ca := CompactingAction.mk (uuid4 (Run.db r)) None None (Some bid) None None
                                (Event.trigger line) (Event.preTokens line) in
  let r' := (process_line line era filename r).1 in
  (process_line line era filename r).2 = Fall
  /\ DB.compacting_actions (Run.db r') = DB.compacting_actions (Run.db r) ++ [ca]
  /\ DB.messages (Run.db r') = DB.messages (Run.db r)
  /\ Run.watchlist r' = Run.watchlist r ∪ {[Some bid]}.
Proof.
  intros Htype Hsub Hu Hlp Hmsg Hnone Hw Hfresh ca r'.
  unfold r', process_line, import_line_from_claude_code_v2,
    detect_event_type_claude_code_v2.
  rewrite Htype, Hsub. cbn [String.eqb Ascii.eqb Bool.eqb andb negb mbind result_bind].
  rewrite Hu. cbn [item mbind result_bind].
  unfold get_or_create_by_id_or_message. rewrite Hlp, Hmsg.
  cbn [mbind result_bind]. rewrite Hnone. cbn [objects_get mbind result_bind].
  unfold create_compacting_action.
  rewrite link_taken_unlinked by done.
  cbn [mbind result_bind CompactingAction.ending_message CompactingAction.context_heap].
  unfold after_assignment, resolve_watchlist.
  cbn [imported_id CompactingAction.id Run.with_db Run.count_line Run.watchlist].
  rewrite bool_decide_eq_false_2 by done.
  unfold note_compacting_action.
  cbn [CompactingAction.ending_message mbind option_bind CompactingAction.context_heap
       CompactingAction.looking_for_ending_message Run.with_last_compact Run.watchlist].
  rewrite bool_decide_eq_false_2 by done.
  done.
Qed.

Lemma link_taken_free_heap c h db :
  CompactingAction.context_heap c = Some h ->
  CompactingAction.ending_message c = None ->
  heap_compacting_actions h db = [] ->
  link_taken c db = false.
Proof.
  intros Hh He Hfree. unfold link_taken. rewrite Hh, He.
  apply not_true_is_false. intros (x & Hx & Ht)%existsb_exists.
  apply list_elem_of_In in Hx.
  rewrite orb_false_r in Ht. apply andb_prop in Ht as [_ Hxh%bool_decide_eq_true].
  eapply (filter_nil_not_elem_of _ _ x Hfree); done.
Qed.

Lemma find_replaced_compacting_action X l :
  (exists x, x ∈ l /\ CompactingAction.id x = CompactingAction.id X) ->
  find (fun c => N.eqb (CompactingAction.id c) (CompactingAction.id X))
       (replace_compacting_action X l) = Some X.
Proof.
  induction l as [|y l IH]; intros (x & Hx & Hid); [by inv Hx|]. simpl.
  destruct (N.eqb_spec (CompactingAction.id y) (CompactingAction.id X)) as [Heq|Hne].
  - by rewrite N.eqb_refl.
  - apply N.eqb_neq in Hne as Hne'. rewrite Hne'. apply IH.
    apply elem_of_cons in Hx as [->|Hx]; [done|]. eauto.
Qed.

Lemma objects_get_Some {A} (l : list A) a : objects_get l = Ok (Some a) -> l = [a].
Proof. destruct l as [|x [|y l]]; simpl; congruence. Qed.

(** The awaited message has arrived in heap [h], which has no
    CompactingAction: the orphan is linked to [h] and the identity leaves
    the watchlist. *)
Lemma resolve_watchlist_links event era r orphan h :
  imported_id event ∈ Run.watchlist r ->
  objects_get (filter (fun c => CompactingAction.looking_for_ending_message c
                                = imported_id event)
                      (DB.compacting_actions (Run.db r))) = Ok (Some orphan) ->
  CompactingAction.ending_message orphan = None ->
  imported_heap event = Some h ->
  heap_compacting_actions h (Run.db r) = [] ->
  let r' := (resolve_watchlist event era r).1 in
  get_compacting_action (CompactingAction.id orphan) (Run.db r')
  = Some (CompactingAction.with_heap (Some h) orphan)
  /\ DB.compacting_actions (Run.db r')
     = replace_compacting_action (CompactingAction.with_heap (Some h) orphan)
         (DB.compacting_actions (Run.db r))
  /\ Run.watchlist r' = Run.watchlist r ∖ {[imported_id event]}
  /\ h ∈ Run.heaps_closed r'
  /\ ((resolve_watchlist event era r).2 = Fall
      \/ (resolve_watchlist event era r).2 = Raised UnboundLocalError).
Proof.
  intros Hin Horphan Hend Hh Hfree r'.
  assert (orphan ∈ DB.compacting_actions (Run.db r)) as Hrow.
  { apply objects_get_Some in Horphan.
    assert (orphan ∈ [orphan]) as Ho by left. rewrite <-Horphan in Ho.
    apply list_elem_of_filter in Ho. tauto. }
  assert (get_compacting_action (CompactingAction.id orphan) (Run.db r) = Some orphan
          \/ exists o, get_compacting_action (CompactingAction.id orphan) (Run.db r) = Some o)
    as Hget.
  { right. unfold get_compacting_action.
    destruct (find _ _) as [o|] eqn:Hf; [eauto|]. exfalso.
    apply list_elem_of_In in Hrow.
    pose proof (find_none _ _ Hf orphan Hrow) as Hn. simpl in Hn.
    by rewrite N.eqb_refl in Hn. }
  assert (exists o, get_compacting_action (CompactingAction.id orphan) (Run.db r) = Some o)
    as [o Ho] by (destruct Hget; eauto).
  unfold r', resolve_watchlist.
  rewrite bool_decide_eq_true_2 by done. rewrite Horphan, Hh, Hfree.
  cbn [first head]. unfold save_compacting_action.
  rewrite (link_taken_free_heap _ h) by done.
  change (CompactingAction.id (CompactingAction.with_heap (Some h) orphan))
    with (CompactingAction.id orphan).
  rewrite Ho.
  assert (find (fun c => N.eqb (CompactingAction.id c) (CompactingAction.id orphan))
            (replace_compacting_action (CompactingAction.with_heap (Some h) orphan)
               (DB.compacting_actions (Run.db r)))
          = Some (CompactingAction.with_heap (Some h) orphan)) as Hfound.
  { apply (find_replaced_compacting_action (CompactingAction.with_heap (Some h) orphan)).
    eauto. }
  cbn -[replace_compacting_action uuid4].
  destruct (Run.heap r) as [heap|]; [destruct (bool_decide (heap = Some h))|];
    cbn -[replace_compacting_action uuid4];
    (split; [exact Hfound|]); (split; [reflexivity|]); (split; [reflexivity|]);
    (split; [apply elem_of_app; right; left|]); auto.
Qed.

End Watchlist.

(** C7.  A compaction marker whose boundary message is not stored yet
    produces a CompactingAction without a heap, and the awaited identity is
    put on the watchlist of the run.  When a message with that identity has
    been ingested into a heap [h] that has no CompactingAction, the watchlist
    step links the waiting CompactingAction to [h] and removes the identity
    from the watchlist.  On the two lines of the example, the marker and then
    its boundary message, the run ends with the CompactingAction linked to
    the heap of the message and an empty watchlist. *)
Theorem C7_orphan_resolved_from_watchlist :
  (forall line era filename r u bid,
     Event.type line = "system" ->
     Event.subtype line = Some "compact_boundary" ->
     Event.uuid line = Some u ->
     Event.logicalParentUuid line = Some bid ->
     get_message bid (Run.db r) = None ->
     filter (fun c => CompactingAction.looking_for_ending_message c = Some bid)
            (DB.compacting_actions (Run.db r)) = [] ->
     Some bid ∉ Run.watchlist r ->
     Some (uuid4 (Run.db r)) ∉ Run.watchlist r ->
     let ca := CompactingAction.mk (uuid4 (Run.db r)) None None (Some bid) None None
                                   (Event.trigger line) (Event.preTokens line) in
     let r' := (process_line line era filename r).1 in
     (process_line line era filename r).2 = Fall
     /\ DB.compacting_actions (Run.db r') = DB.compacting_actions (Run.db r) ++ [ca]
     /\ CompactingAction.context_heap ca = None
     /\ Run.watchlist r' = Run.watchlist r ∪ {[Some bid]})
  /\ (forall event era r orphan h,
        imported_id event ∈ Run.watchlist r ->
        objects_get (filter (fun c => CompactingAction.looking_for_ending_message c
                                      = imported_id event)
                            (DB.compacting_actions (Run.db r))) = Ok (Some orphan) ->
        CompactingAction.ending_message orphan = None ->
        imported_heap event = Some h ->
        heap_compacting_actions h (Run.db r) = [] ->
        let r' := (resolve_watchlist event era r).1 in
        get_compacting_action (CompactingAction.id orphan) (Run.db r')
        = Some (CompactingAction.with_heap (Some h) orphan)
        /\ DB.compacting_actions (Run.db r')
           = replace_compacting_action (CompactingAction.with_heap (Some h) orphan)
               (DB.compacting_actions (Run.db r))
        /\ Run.watchlist r' = Run.watchlist r ∖ {[imported_id event]}
        /\ (imported_id event ∉ Run.watchlist r'))
  /\ (let r1 := (process_lines [marker_line] 7 "a.jsonl" (Run.start DB.empty)).1 in
      let r2 := (process_lines [marker_line; boundary_message_line] 7 "a.jsonl"
                               (Run.start DB.empty)).1 in
      map CompactingAction.context_heap (DB.compacting_actions (Run.db r1)) = [None]
      /\ elements (Run.watchlist r1) = [Some 10%N]
      /\ map CompactingAction.context_heap (DB.compacting_actions (Run.db r2))
         = [get_message 10 (Run.db r2) ≫= Message.context_heap]
      /\ is_Some (get_message 10 (Run.db r2) ≫= Message.context_heap)
      /\ elements (Run.watchlist r2) = []).
Proof.
  split; [|split].
  - intros line era filename r u bid H1 H2 H3 H4 H5 H6 H7 H8 ca r'.
    destruct (process_marker_line line era filename r u bid H1 H2 H3 H4 H5 H6 H7 H8)
      as (? & ? & ? & ?).
    done.
  - intros event era r orphan h H1 H2 H3 H4 H5 r'.
    destruct (resolve_watchlist_links event era r orphan h H1 H2 H3 H4 H5)
      as (Hg & Hc & Hw & _).
    split; [exact Hg|]. split; [exact Hc|]. split; [exact Hw|].
    unfold r'. rewrite Hw. apply not_elem_of_difference. right.
    by apply elem_of_singleton.
  - vm_compute. repeat split; try reflexivity. by eexists.
Qed.

Lemma C7_orphan_resolved_from_watchlist_witness :
  (let r' := (process_line marker_line 7 "a.jsonl" (Run.start DB.empty)).1 in
   map CompactingAction.looking_for_ending_message (DB.compacting_actions (Run.db r'))
   = [Some 10%N]
   /\ Run.watchlist r' = ∅ ∪ {[Some 10%N]})
  /\ (let r' := (resolve_watchlist (ImpMessage (plain 10 (Some 1%Z) (Some 11%N) None))
                                   7 orphan_example_run).1 in
      get_compacting_action 1 (Run.db r')
      = Some (CompactingAction.with_heap (Some 11%N) orphan_example_ca)
      /\ (Some 10%N ∉ Run.watchlist r')).
Proof.
  destruct C7_orphan_resolved_from_watchlist as (H1 & H2 & _). split.
  - destruct (H1 marker_line 7%N "a.jsonl" (Run.start DB.empty) 20%N 10%N)
      as (_ & Hc & _ & Hw).
    + reflexivity.
    + reflexivity.
    + reflexivity.
    + reflexivity.
    + reflexivity.
    + reflexivity.
    + apply not_elem_of_empty.
    + apply not_elem_of_empty.
    + split; [|exact Hw]. cbv zeta. rewrite Hc. reflexivity.
  - destruct (H2 (ImpMessage (plain 10 (Some 1%Z) (Some 11%N) None)) 7%N
                orphan_example_run orphan_example_ca 11%N)
      as (Hg & _ & _ & Hn).
    + apply (bool_decide_unpack _). vm_compute. exact I.
    + reflexivity.
    + reflexivity.
    + reflexivity.
    + reflexivity.
    + split; [exact Hg|exact Hn].
Defined.


(** * Ingesting a line *)
Section Ingest.

Lemma message_defaults_new et event u filename username d rcp always :
  message_defaults et event u filename username = Ok (d, rcp, always) ->
  Message.id d = u /\ Message.context_heap d = None /\ Message.recipients d = [].
Proof.
  unfold message_defaults, content_items.
  destruct et; try discriminate;
    repeat (first [discriminate | case_match | destruct (parse_command_xml _)
                  | progress simpl]);
    intros Hd; simplify_eq; done.
Qed.

(** The branches that store a message share their tail: the row is fetched
    or created, the recipient added, the parent set. *)
Lemma import_line_message event era filename username db et u d rcp always :
  detect_event_type_claude_code_v2 event = Ok et ->
  Event.uuid event = Some u ->
  message_defaults et event u filename username = Ok (d, rcp, always) ->
  import_line_from_claude_code_v2 event era filename username db
  = ('(message, created, db) ← get_or_create d db;
     let '(message, db) :=
       if created || always then recipients_add rcp message db else (message, db) in
     '(message, db) ←
       match Event.parentUuid event with
       | Some apparent_parent_id => set_parent_id message apparent_parent_id db
       | None => Ok (message, db)
       end;
     Ok (ImpMessage message, created, db)).
Proof.
  intros Hdet Hu Hdef. unfold import_line_from_claude_code_v2.
  rewrite Hdet. cbn [mbind result_bind].
  destruct et; try discriminate Hdef;
    rewrite Hu; cbn [item mbind result_bind]; rewrite Hdef; reflexivity.
Qed.




Lemma number_taken_ext m m' db :
  Message.id m' = Message.id m ->
  Message.context_heap m' = Message.context_heap m ->
  Message.message_number m' = Message.message_number m ->
  number_taken m' db = number_taken m db.
Proof. unfold number_taken. by intros -> -> ->. Qed.



Lemma find_replace_message y u l m :
  Message.id y = u ->
  find (fun x => N.eqb (Message.id x) u) l = Some m ->
  find (fun x => N.eqb (Message.id x) u) (replace_message y l) = Some y.
Proof.
  intros <-. unfold replace_message.
  induction l as [|x l IH]; simpl; [done|].
  destruct (N.eqb_spec (Message.id x) (Message.id y)) as [Hx|Hx].
  - by rewrite N.eqb_refl.
  - destruct (N.eqb_spec (Message.id x) (Message.id y)); [done|]. apply IH.
Qed.






Lemma get_message_app_new u db d :
  get_message u db = None -> Message.id d = u ->
  get_message u (DB.with_messages (DB.messages db ++ [d]) db) = Some d.
Proof.
  unfold get_message. destruct db as [hs l cs ss]; simpl. intros Hn Hd.
  induction l as [|x l IH]; simpl in *.
  - by rewrite Hd, N.eqb_refl.
  - destruct (N.eqb (Message.id x) u); [done|]. by apply IH.
Qed.


End Ingest.






(** * Composite lines *)
Section Composite.





End Composite.





(** * ContextHeap.add_event *)
Section AddEvent.

Lemma last_app_one {A} (l : list A) x : last (l ++ [x]) = Some x.
Proof. unfold last. rewrite map_app. apply last_last. Qed.

Lemma last_cons_more {A} (a b : A) l : last (a :: b :: l) = last (b :: l).
Proof. done. Qed.

Lemma key_le_refl k : key_le k k.
Proof. destruct k; unfold key_le; simpl; [|done]. apply Z.leb_refl. Qed.

(** The last row of an ordered query is above every row. *)
Lemma sorted_last_max l x :
  Sorted row_le l -> x ∈ l -> exists y, last l = Some y /\ row_le x y.
Proof.
  intros Hs%Sorted_StronglySorted; [|apply _]. revert x.
  induction Hs as [|a l Hl IH Ha]; intros x Hx; [by inv Hx|].
  destruct l as [|b l].
  - apply list_elem_of_singleton in Hx as ->. exists a. split; [done|].
    apply key_le_refl.
  - rewrite last_cons_more.
    apply elem_of_cons in Hx as [->|Hx]; [|by apply IH].
    destruct (IH b) as (y & Hy & _); [left|].
    exists y. split; [done|].
    rewrite Forall_forall in Ha. apply Ha. by apply last_Some_in.
Qed.

Lemma heap_ordinals_perm h db :
  ordinals h db ≡ₚ map Message.message_number (heap_messages h db).
Proof. apply fmap_Permutation, order_by_message_number_perm. Qed.

(** Under the ordinal invariant the numbers of a heap of n rows are within
    1..n. *)
Lemma invariant_numbers h db x :
  ordinal_invariant h db -> x ∈ heap_messages h db ->
  exists z, Message.message_number x = Some z
            /\ (1 <= z <= Z.of_nat (List.length (heap_messages h db)))%Z.
Proof.
  intros Hinv Hx.
  assert (Message.message_number x ∈ ordinals h db) as Hin.
  { rewrite heap_ordinals_perm. by apply (list_elem_of_fmap_2 Message.message_number). }
  rewrite Hinv in Hin. apply list_elem_of_fmap in Hin as (z & -> & Hz).
  exists z. split; [done|]. apply elem_of_seqZ in Hz. lia.
Qed.

(** [next_number] under the ordinal invariant. *)
Lemma invariant_next_number h db :
  ordinal_invariant h db ->
  match last (order_by_message_number (heap_messages h db)) with
  | Some last_message =>
      match Message.message_number last_message with
      | Some n => Ok (n + 1)%Z
      | None => Raise TypeError
      end
  | None => Ok 1%Z
  end = Ok (Z.of_nat (List.length (heap_messages h db)) + 1)%Z.
Proof.
  unfold ordinal_invariant, ordinals.
  rewrite <-(Permutation_length (order_by_message_number_perm (heap_messages h db))).
  generalize (order_by_message_number (heap_messages h db)). intros S.
  destruct S as [|x S _] using rev_ind; [done|].
  rewrite last_app_one, length_app, Nat.add_1_r, seqZ_S, !map_app. simpl.
  intros [_ ->]%app_inj_tail. f_equal. lia.
Qed.

Lemma replace_message_absent e l :
  Message.id e ∉ map Message.id l -> replace_message e l = l.
Proof.
  intros Hni. unfold replace_message. rewrite <-(map_id l) at 2.
  apply map_ext_in. intros x Hx%list_elem_of_In.
  destruct (N.eqb_spec (Message.id x) (Message.id e)) as [Heq|]; [|done].
  exfalso. apply Hni. rewrite <-Heq. by apply (list_elem_of_fmap_2 Message.id).
Qed.

(** Saving a row into the rows that satisfy [P], when the stored row of
    that key did not satisfy it. *)
Lemma filter_replace_enters (P : Message.t -> Prop) `{!forall x, Decision (P x)} e l :
  NoDup (map Message.id l) ->
  (forall x, x ∈ l -> Message.id x = Message.id e -> ~ P x) ->
  P e -> Message.id e ∈ map Message.id l ->
  filter P (replace_message e l) ≡ₚ e :: filter P l.
Proof.
  induction l as [|a l IH]; intros Hnd Hout He Hin; [by inv Hin|].
  cbn [map] in Hnd, Hin. apply NoDup_cons in Hnd as [Ha Hnd].
  unfold replace_message. cbn [map]. fold (replace_message e l).
  destruct (N.eqb_spec (Message.id a) (Message.id e)) as [Heq|Hne].
  - rewrite replace_message_absent by (by rewrite <-Heq).
    rewrite filter_cons_True by done.
    rewrite (filter_cons_False _ a); [done|]. apply Hout; [left|done].
  - apply elem_of_cons in Hin as [Hin|Hin]; [congruence|].
    assert (filter P (replace_message e l) ≡ₚ e :: filter P l) as IH'.
    { apply IH; [done| |done|done]. intros x Hx. apply Hout. by right. }
    rewrite !(filter_cons _ a). destruct (decide (P a)); [|done].
    rewrite IH'. apply Permutation_swap.
Qed.

Lemma get_message_None_ids i db :
  get_message i db = None -> i ∉ map Message.id (DB.messages db).
Proof.
  unfold get_message. intros Hf Hin.
  apply list_elem_of_fmap in Hin as (x & -> & Hx).
  apply list_elem_of_In in Hx.
  apply (find_none _ _ Hf) in Hx. by rewrite N.eqb_refl in Hx.
Qed.

Lemma get_message_Some_ids i db m :
  get_message i db = Some m -> i ∈ map Message.id (DB.messages db).
Proof.
  intros [Hin <-]%get_message_Some. by apply (list_elem_of_fmap_2 Message.id).
Qed.

(** What [add_event] does to a heap that has the ordinal invariant. *)
Lemma add_event_spec h event db :
  unique_ids db ->
  ordinal_invariant h db ->
  (forall x, x ∈ DB.messages db -> Message.id x = Message.id event ->
             Message.context_heap x ≠ Some h) ->
  let n := Z.of_nat (List.length (heap_messages h db)) in
  let event' := Message.with_number (Some (n + 1)%Z)
                  (Message.with_heap (Some h) event) in
  exists db',
    add_event h event db = Ok (event', db')
    /\ heap_messages h db' ≡ₚ event' :: heap_messages h db
    /\ ordinal_invariant h db'
    /\ unique_ids db'
    /\ DB.heaps db' = DB.heaps db
    /\ DB.compacting_actions db' = DB.compacting_actions db
    /\ DB.summaries db' = DB.summaries db.
Proof.
  intros Huniq Hinv Hout n event'.
  assert (number_taken event' db = false) as Hnt.
  { apply number_taken_false. intros x Hx _ Hxh Hxn. exfalso.
    destruct (invariant_numbers h db x Hinv) as (z & Hz & Hle).
    { apply list_elem_of_filter. split; [exact Hxh|done]. }
    rewrite Hz in Hxn. simpl in Hxn. injection Hxn as ->. fold n in Hle. lia. }
  assert (exists db',
    save_message event' db = Ok db'
    /\ heap_messages h db' ≡ₚ event' :: heap_messages h db
    /\ unique_ids db'
    /\ DB.heaps db' = DB.heaps db
    /\ DB.compacting_actions db' = DB.compacting_actions db
    /\ DB.summaries db' = DB.summaries db) as (db' & Hsave & Hperm & Hu' & Hrest).
  { unfold save_message. rewrite Hnt.
    change (Message.id event') with (Message.id event).
    destruct (get_message (Message.id event) db) as [stored|] eqn:Hget.
    - eexists. split; [done|]. destruct db as [hs ms cs ss].
      unfold heap_messages, unique_ids in *. simpl in *.
      split; [|split; [by rewrite replace_message_ids|done]].
      apply filter_replace_enters; [done| |done|].
      + intros x Hx Hid. apply Hout; [done|]. by rewrite Hid.
      + by apply (get_message_Some_ids _ _ _ Hget).
    - eexists. split; [done|]. destruct db as [hs ms cs ss].
      apply get_message_None_ids in Hget.
      unfold heap_messages, unique_ids in *. simpl in *.
      split; [|split; [|done]].
      + rewrite filter_app, filter_cons_True, filter_nil by done.
        by rewrite Permutation_app_comm.
      + rewrite map_app. apply NoDup_app. split; [done|]. split.
        * intros i Hi Hi'. apply list_elem_of_singleton in Hi'. by subst.
        * apply NoDup_singleton. }
  exists db'. split; [|split; [done|split; [|split; [done|done]]]].
  - unfold add_event. rewrite (invariant_next_number h db Hinv).
    cbn [mbind result_bind]. fold n. fold event'. by rewrite Hsave.
  - unfold ordinal_invariant. apply ordinals_unique; [|apply seqZ_sorted].
    rewrite Hperm. cbn [map List.length].
    rewrite <-heap_ordinals_perm, Hinv.
    rewrite seqZ_S, map_app. fold n. simpl.
    rewrite Permutation_app_comm. simpl.
    replace (1 + n)%Z with (n + 1)%Z by lia. done.
Qed.

End AddEvent.




(** X2.  [ContextHeap.add_event] on a heap that holds a message without
    ordinal: [order_by('message_number').last()] is then a row whose
    [message_number] is NULL (NULL sorts above every number), and
    [last_message.message_number + 1] raises TypeError.  Nothing is
    written. *)
Theorem X2_add_event_null_ordinal_raises h event db x :
  x ∈ heap_messages h db ->
  Message.message_number x = None ->
  add_event h event db = Raise TypeError.
Proof.
  intros Hx Hn.
  destruct (sorted_last_max (order_by_message_number (heap_messages h db)) x)
    as (y & Hy & Hle).
  - apply order_by_message_number_sorted.
  - by rewrite order_by_message_number_perm.
  - unfold add_event. rewrite Hy.
    unfold row_le, key_le in Hle. rewrite Hn in Hle.
    destruct (Message.message_number y); [done|]. done.
Qed.

Lemma X2_add_event_null_ordinal_raises_witness :
  add_event 100 (plain 3 None None (Some 2%N))
    (DB.mk [ContextHeap.mk 100 7 FRESH None]
           [plain 1 (Some 1%Z) (Some 100%N) None;
            plain 2 None (Some 100%N) (Some 1%N);
            plain 3 None None (Some 2%N)] [] [])
  = Raise TypeError.
Proof.
  apply (X2_add_event_null_ordinal_raises 100 _ _ (plain 2 None (Some 100%N) (Some 1%N))).
  - apply list_elem_of_filter. split; [reflexivity|]. right. left.
  - reflexivity.
Defined.

(** * watcher/heap_assignment.py: the rules that open a heap *)
Section NewHeap.

Lemma create_heap_empty era type fm db :
  heap_messages (uuid4 db) (create_heap era type fm db).2 = [].
Proof.
  unfold create_heap, heap_messages. simpl.
  apply filter_keeps_none, Forall_forall. intros x Hx. by apply uuid4_no_message.
Qed.

(** What the rules that open a heap leave. *)
Lemma assign_heap_opens_heap_spec message era current_heap db parent :
  unique_ids db ->
  Message.context_heap message = None ->
  parent_of message db = Ok parent ->
  parent ≫= Message.context_heap = None ->
  Message.is_continuation_message message = true \/ parent = None \/ current_heap = None ->
  let heap := uuid4 db in
  let type := if Message.is_continuation_message message
              then POST_COMPACTING else FRESH in
  let message' := Message.with_number (Some 1%Z)
                    (Message.with_heap (Some heap) message) in
  exists db',
    assign_heap_to_message message era current_heap db = Ok (heap, db')
    /\ get_heap heap db = None
    /\ DB.heaps db' = DB.heaps db ++ [ContextHeap.mk heap era type None]
    /\ heap_messages heap db' = [message']
    /\ get_message (Message.id message) db' = Some message'
    /\ ordinal_invariant heap db'
    /\ unique_ids db'.
Proof.
  intros Huniq Hheap Hparent Hph Hrule heap type message'.
  set (db0 := (create_heap era type None db).2).
  assert (heap_messages heap db0 = []) as Hempty by apply create_heap_empty.
  destruct (add_event_spec heap message db0) as (db' & Hadd & Hperm & Hinv & Hu' & Hh & _).
  { exact Huniq. }
  { unfold ordinal_invariant, ordinals. by rewrite Hempty. }
  { intros x Hx _ Hxh.
    assert (x ∈ heap_messages heap db0) as Hin by (by apply list_elem_of_filter).
    rewrite Hempty in Hin. by inv Hin. }
  rewrite Hempty in Hadd, Hperm. cbn [List.length Z.of_nat Z.add] in Hadd, Hperm.
  fold message' in Hadd, Hperm.
  apply Permutation_singleton_r in Hperm.
  exists db'.
  assert (assign_heap_to_message message era current_heap db = Ok (heap, db')) as Hres.
  { unfold assign_heap_to_message. rewrite Hheap, Hparent. cbn [mbind result_bind].
    rewrite Hph.
    assert (forall t, create_heap era t None db
                      = (heap, (create_heap era t None db).2)) as Hc by done.
    unfold type in db0.
    destruct (Message.is_continuation_message message).
    - rewrite Hc. fold db0. by rewrite Hadd.
    - destruct Hrule as [?|[->| ->]]; [done| |].
      + rewrite Hc. fold db0. by rewrite Hadd.
      + destruct parent; rewrite Hc; fold db0; by rewrite Hadd. }
  split; [exact Hres|]. split; [apply uuid4_no_heap|].
  split; [by rewrite Hh|]. split; [exact Hperm|]. split; [|by split].
  apply (get_message_in db' message' Hu').
  assert (message' ∈ heap_messages heap db') as Hin by (rewrite Hperm; left).
  by apply list_elem_of_filter in Hin as [_ Hin].
Qed.


End NewHeap.

(** X3.  [assign_heap_to_message], rules 2 to 4 when a heap is opened: a
    message without heap whose parent is missing or has no heap, and that is
    a continuation message, or has no parent, or comes with no current heap.
    A heap is created in the era, of kind POST_COMPACTING for a continuation
    message and FRESH otherwise; its key is new; the message is its only
    message, with the ordinal 1, so the heap has the ordinal invariant. *)
Theorem X3_assign_heap_opens_heap message era current_heap db parent :
  unique_ids db ->
  Message.context_heap message = None ->
  parent_of message db = Ok parent ->
  parent ≫= Message.context_heap = None ->
  Message.is_continuation_message message = true \/ parent = None \/ current_heap = None ->
  let heap := uuid4 db in
  let type := if Message.is_continuation_message message
              then POST_COMPACTING else FRESH in
  let message' := Message.with_number (Some 1%Z)
                    (Message.with_heap (Some heap) message) in
  exists db',
    assign_heap_to_message message era current_heap db = Ok (heap, db')
    /\ get_heap heap db = None
    /\ DB.heaps db' = DB.heaps db ++ [ContextHeap.mk heap era type None]
    /\ heap_messages heap db' = [message']
    /\ get_message (Message.id message) db' = Some message'
    /\ ordinal_invariant heap db'.
Proof.
  intros Huniq Hheap Hparent Hph Hrule heap type message'.
  destruct (assign_heap_opens_heap_spec message era current_heap db parent
              Huniq Hheap Hparent Hph Hrule)
    as (db' & Hres & Hnew & Hheaps & Hrows & Hget & Hinv & _).
  exists db'. by repeat split.
Qed.

Lemma X3_assign_heap_opens_heap_witness :
  exists db',
    assign_heap_to_message (plain 9 None None None) 7 (Some 100%N)
      (DB.with_messages (DB.messages parent_in_heap_db ++ [plain 9 None None None])
                        parent_in_heap_db)
    = Ok (101%N, db')
    /\ get_heap 101 (DB.with_messages
                       (DB.messages parent_in_heap_db ++ [plain 9 None None None])
                       parent_in_heap_db) = None
    /\ DB.heaps db' = [ContextHeap.mk 100 7 FRESH None; ContextHeap.mk 101 7 FRESH None]
    /\ heap_messages 101 db' = [plain 9 (Some 1%Z) (Some 101%N) None]
    /\ get_message 9 db' = Some (plain 9 (Some 1%Z) (Some 101%N) None)
    /\ ordinal_invariant 101 db'.
Proof.
  apply (X3_assign_heap_opens_heap (plain 9 None None None) 7 (Some 100%N)
           (DB.with_messages (DB.messages parent_in_heap_db ++ [plain 9 None None None])
                             parent_in_heap_db) None).
  - apply (bool_decide_unpack _). vm_compute. exact I.
  - reflexivity.
  - reflexivity.
  - reflexivity.
  - right. left. reflexivity.
Defined.





(** * Dry runs *)
Section DryRun.





Lemma merge_heap_dry heap db dels merged :
  exists merged', merge_heap true heap (db, dels, merged) = Ok (db, dels, merged')
                  /\ (merged <= merged' <= S merged)%nat.
Proof.
  unfold merge_heap.
  repeat match goal with
         | |- context [match ?x with _ => _ end] =>
             match type of x with
             | option _ => destruct x
             | bool => destruct x
             end
         end; eauto with lia.
Qed.

Lemma merge_heaps_dry heaps : forall db dels merged,
  exists merged', merge_heaps true heaps (db, dels, merged) = Ok (db, dels, merged')
                  /\ (merged' <= merged + List.length heaps)%nat.
Proof.
  induction heaps as [|heap heaps IH]; intros db dels merged.
  - exists merged. split; [done|]. simpl. lia.
  - change (merge_heaps true (heap :: heaps) (db, dels, merged))
      with (merge_heap true heap (db, dels, merged) ≫= merge_heaps true heaps).
    destruct (merge_heap_dry heap db dels merged) as (m1 & -> & Hm1).
    cbn [mbind result_bind].
    destruct (IH db dels m1) as (m' & -> & Hm'). exists m'. split; [done|].
    simpl. lia.
Qed.

End DryRun.


(** X6.  [merge_connected_heaps] with [dry_run] writes nothing: it ends
    without an exception on every database, returns the database as it is,
    and the number of merges it reports is at most the number of FRESH heaps
    it looked at. *)
Theorem X6_merge_dry_run era_id db :
  exists merged,
    merge_connected_heaps era_id true db = Ok (db, merged)
    /\ (merged <= List.length (DB.heaps db))%nat.
Proof.
  unfold merge_connected_heaps.
  destruct (merge_heaps_dry
              (filter (fun h => ContextHeap.type h = FRESH /\ in_era era_id h = true)
                      (DB.heaps db)) db [] O) as (m & -> & Hm).
  exists m. split; [done|].
  etransitivity; [exact Hm|]. simpl. apply length_filter.
Qed.


(** * handle_summary *)
Section Summaries.

Lemma objects_get_None {A} (l : list A) : objects_get l = Ok None -> l = [].
Proof. destruct l as [|x [|y l]]; simpl; congruence. Qed.

Lemma objects_get_nil_one {A} (P : A -> Prop) `{!forall x, Decision (P x)} l a :
  objects_get (filter P l) = Ok None -> P a ->
  objects_get (filter P (l ++ [a])) = Ok (Some a).
Proof.
  intros Hn%objects_get_None Ha.
  by rewrite filter_app, Hn, filter_cons_True, filter_nil.
Qed.

End Summaries.

(** X7.  The last statement of [handle_summary], which is to link an
    orphaned Summary once its leaf message is stored, is never executed.  A
    Summary that was found when the leaf message exists was found by its
    [leaf_message], so its [leaf_message] is set and the condition fails: the
    function as written and the function without that statement return the
    same on every event and database. *)
Theorem X7_handle_summary_link_is_dead event db :
  handle_summary_with_link event db = handle_summary event db.
Proof.
  unfold handle_summary_with_link, handle_summary.
  destruct (item (Event.leafUuid event)) as [leaf_uuid|e]; [|done].
  cbn [mbind result_bind].
  destruct (get_message leaf_uuid db) as [m|].
  - destruct (objects_get _) as [[s|]|e] eqn:Hget; cbn [mbind result_bind negb andb];
      [|done|done].
    apply objects_get_Some in Hget.
    assert (s ∈ filter (fun s => Summary.leaf_message s = Some (Message.id m))
                       (DB.summaries db)) as Hin by (rewrite Hget; left).
    apply list_elem_of_filter in Hin as [Hleaf _].
    rewrite (bool_decide_eq_false_2 (Summary.leaf_message s = None)) by congruence.
    by rewrite andb_false_r.
  - by destruct (objects_get _) as [[s|]|e].
Qed.

(** X8.  An orphaned Summary stays orphaned.  When the leaf message of a
    summary line is stored and no Summary points to it with [leaf_message],
    [handle_summary] creates a Summary for the line, also when a Summary that
    waits for this leaf ([looking_for_leaf_message]) is stored: the waiting
    row is not looked up and not written, and the table then holds both. *)
Theorem X8_handle_summary_orphan_not_linked event db leaf m orphan :
  Event.leafUuid event = Some leaf ->
  get_message leaf db = Some m ->
  orphan ∈ DB.summaries db ->
  Summary.looking_for_leaf_message orphan = Some leaf ->
  Summary.leaf_message orphan = None ->
  (forall s, s ∈ DB.summaries db -> Summary.leaf_message s ≠ Some (Message.id m)) ->
  exists s,
    handle_summary event db
    = Ok (s, true, DB.with_summaries (DB.summaries db ++ [s]) db)
    /\ Summary.leaf_message s = Some leaf
    /\ Summary.summary_text s = Event.summary event
    /\ Summary.id s ≠ Summary.id orphan.
Proof.
  intros Hleaf Hm Horphan Hlooking Hnone Hfree.
  destruct (get_message_Some _ _ _ Hm) as [_ Hid].
  unfold handle_summary. rewrite Hleaf. cbn [item mbind result_bind]. rewrite Hm.
  rewrite filter_keeps_none by (apply Forall_forall; exact Hfree).
  cbn [objects_get mbind result_bind].
  eexists. split; [done|]. cbn. split; [by rewrite Hid|]. split; [done|].
  intros Heq. apply (uuid4_fresh db (Summary.id orphan)); [|done].
  unfold keys_in_use. rewrite !elem_of_app. do 5 right.
  by apply (list_elem_of_fmap_2 Summary.id).
Qed.

Lemma X8_handle_summary_orphan_not_linked_witness :
  exists s,
    handle_summary summary_line
      (DB.with_summaries [Summary.mk 60 "Summary of the session" None (Some 5%N)]
                         first_line_db)
    = Ok (s, true,
          DB.with_summaries
            ([Summary.mk 60 "Summary of the session" None (Some 5%N)] ++ [s])
            first_line_db)
    /\ Summary.leaf_message s = Some 5%N
    /\ Summary.summary_text s = "Summary of the session"
    /\ Summary.id s ≠ 60%N.
Proof.
  apply (X8_handle_summary_orphan_not_linked summary_line
           (DB.with_summaries [Summary.mk 60 "Summary of the session" None (Some 5%N)]
                              first_line_db)
           5 first_line_message
           (Summary.mk 60 "Summary of the session" None (Some 5%N))).
  - reflexivity.
  - reflexivity.
  - left.
  - reflexivity.
  - reflexivity.
  - intros s Hs. apply list_elem_of_singleton in Hs as ->. discriminate.
Defined.

(** X9.  [handle_summary] is idempotent.  When it has returned a Summary
    for a line, handling the same line again on the resulting database
    returns that Summary with [created = False] and writes nothing. *)
Theorem X9_handle_summary_idempotent event db s created db' :
  handle_summary event db = Ok (s, created, db') ->
  handle_summary event db' = Ok (s, false, db').
Proof.
  unfold handle_summary.
  destruct (item (Event.leafUuid event)) as [leaf_uuid|e]; [|done].
  cbn [mbind result_bind].
  assert (forall ss, get_message leaf_uuid (DB.with_summaries ss db)
                     = get_message leaf_uuid db) as Hsame by done.
  destruct (get_message leaf_uuid db) as [m|] eqn:Hm.
  - destruct (objects_get _) as [[f|]|e] eqn:Hget; cbn [mbind result_bind]; [| |done].
    + intros [= <- <- <-]. by rewrite Hm, Hget.
    + intros [= <- <- <-]. rewrite Hsame. cbn [DB.with_summaries DB.summaries].
      by rewrite (objects_get_nil_one _ _ _ Hget).
  - destruct (objects_get _) as [[f|]|e] eqn:Hget; cbn [mbind result_bind]; [| |done].
    + intros [= <- <- <-]. by rewrite Hm, Hget.
    + intros [= <- <- <-]. rewrite Hsame. cbn [DB.with_summaries DB.summaries].
      by rewrite (objects_get_nil_one _ _ _ Hget).
Qed.

Lemma X9_handle_summary_idempotent_witness :
  handle_summary summary_line
    (DB.with_summaries [Summary.mk 6 "Summary of the session" (Some 5%N) None]
                       first_line_db)
  = Ok (Summary.mk 6 "Summary of the session" (Some 5%N) None, false,
        DB.with_summaries [Summary.mk 6 "Summary of the session" (Some 5%N) None]
                          first_line_db).
Proof.
  apply (X9_handle_summary_idempotent summary_line first_line_db _ true).
  reflexivity.
Defined.


(** * What the importer leaves to its caller *)
Section Placement.





Lemma replace_message_placement X l :
  (forall x, x ∈ l -> Message.id x = Message.id X -> placement x = placement X) ->
  map placement (replace_message X l) = map placement l.
Proof.
  intros Hsame. unfold replace_message. rewrite map_map. apply map_ext_in.
  intros x Hx%list_elem_of_In.
  destruct (N.eqb_spec (Message.id x) (Message.id X)) as [Heq|]; [|done].
  symmetry. by apply Hsame.
Qed.

Lemma replace_message_rows X l x :
  x ∈ replace_message X l -> Message.id x = Message.id X -> x = X.
Proof.
  unfold replace_message. intros (y & -> & Hy)%list_elem_of_fmap.
  destruct (N.eqb_spec (Message.id y) (Message.id X)); [done|congruence].
Qed.





End Placement.




(** * CompactingActionManager.get_or_create_by_id_or_message *)
Section GetOrCreateByIdOrMessage.

Lemma replace_compacting_action_absent c l :
  CompactingAction.id c ∉ map CompactingAction.id l ->
  replace_compacting_action c l = l.
Proof.
  intros Hni. unfold replace_compacting_action. rewrite <-(map_id l) at 2.
  apply map_ext_in. intros x Hx%list_elem_of_In.
  destruct (N.eqb_spec (CompactingAction.id x) (CompactingAction.id c)) as [Heq|];
    [|done].
  exfalso. apply Hni. rewrite <-Heq. by apply (list_elem_of_fmap_2 CompactingAction.id).
Qed.

Lemma replace_compacting_action_same c l :
  (forall x, x ∈ l -> CompactingAction.id x = CompactingAction.id c -> x = c) ->
  replace_compacting_action c l = l.
Proof.
  intros Hrows. unfold replace_compacting_action. rewrite <-(map_id l) at 2.
  apply map_ext_in. intros x Hx%list_elem_of_In.
  destruct (N.eqb_spec (CompactingAction.id x) (CompactingAction.id c)) as [Heq|];
    [|done].
  symmetry. by apply Hrows.
Qed.

Lemma replace_compacting_action_rows c l x :
  x ∈ replace_compacting_action c l ->
  CompactingAction.id x = CompactingAction.id c -> x = c.
Proof.
  unfold replace_compacting_action. intros (y & -> & Hy)%list_elem_of_fmap.
  destruct (N.eqb_spec (CompactingAction.id y) (CompactingAction.id c));
    [done|congruence].
Qed.

Lemma filter_replace_one (P : CompactingAction.t -> Prop) `{!forall x, Decision (P x)}
    saved c0 l :
  NoDup (map CompactingAction.id l) -> c0 ∈ l ->
  CompactingAction.id saved = CompactingAction.id c0 ->
  P saved -> (forall x, x ∈ l -> x ≠ c0 -> ~ P x) ->
  filter P (replace_compacting_action saved l) = [saved].
Proof.
  induction l as [|a l IH]; intros Hnd Hin Hid Hsaved Hothers; [by inv Hin|].
  cbn [map] in Hnd. apply NoDup_cons in Hnd as [Ha Hnd].
  unfold replace_compacting_action. cbn [map]. fold (replace_compacting_action saved l).
  apply elem_of_cons in Hin as [->|Hin].
  - rewrite Hid, N.eqb_refl.
    rewrite replace_compacting_action_absent by (by rewrite Hid).
    rewrite filter_cons_True by done. f_equal.
    apply filter_keeps_none, Forall_forall. intros x Hx.
    apply Hothers; [by right|]. intros ->. apply Ha.
    by apply (list_elem_of_fmap_2 CompactingAction.id).
  - assert (a ≠ c0) as Hne.
    { intros ->. apply Ha. by apply (list_elem_of_fmap_2 CompactingAction.id). }
    destruct (N.eqb_spec (CompactingAction.id a) (CompactingAction.id saved)) as [Heq|_].
    + exfalso. apply Ha. rewrite Heq, Hid.
      by apply (list_elem_of_fmap_2 CompactingAction.id).
    + rewrite filter_cons_False by (apply Hothers; [left|done]).
      apply IH; try done. intros x Hx. apply Hothers. by right.
Qed.

Lemma link_taken_replace c y db :
  CompactingAction.id y = CompactingAction.id c ->
  link_taken c (DB.with_compacting_actions
                  (replace_compacting_action y (DB.compacting_actions db)) db)
  = link_taken c db.
Proof.
  intros Hy. unfold link_taken. destruct db as [hs ms l ss]. simpl.
  unfold replace_compacting_action.
  induction l as [|x l IH]; simpl; [done|]. rewrite IH. f_equal.
  destruct (N.eqb_spec (CompactingAction.id x) (CompactingAction.id y)) as [Hx|Hx];
    [|done].
  rewrite Hy, N.eqb_refl. by rewrite Hx, Hy, N.eqb_refl.
Qed.

Lemma link_taken_app_self c db :
  link_taken c (DB.with_compacting_actions (DB.compacting_actions db ++ [c]) db)
  = link_taken c db.
Proof.
  unfold link_taken. destruct db as [hs ms l ss]. simpl.
  rewrite existsb_app. simpl. rewrite N.eqb_refl. simpl. by rewrite !orb_false_r.
Qed.

Lemma get_compacting_action_in c db :
  c ∈ DB.compacting_actions db ->
  is_Some (get_compacting_action (CompactingAction.id c) db).
Proof.
  unfold get_compacting_action. intros Hin.
  destruct (find _ _) eqn:Hf; [done|]. exfalso.
  apply list_elem_of_In in Hin. apply (find_none _ _ Hf) in Hin.
  by rewrite N.eqb_refl in Hin.
Qed.

(** The call on a database in which the CompactingAction of the message is
    stored, as the manager leaves it. *)
Lemma get_or_create_by_id_stored message_id t p db m c :
  get_message message_id db = Some m ->
  filter (fun x => CompactingAction.ending_message x = Some (Message.id m))
         (DB.compacting_actions db) = [c] ->
  CompactingAction.looking_for_ending_message c = None ->
  link_taken c db = false ->
  (forall x, x ∈ DB.compacting_actions db ->
             CompactingAction.id x = CompactingAction.id c -> x = c) ->
  Message.context_heap m ≠ None ->
  get_or_create_by_id_or_message (Some message_id) t p db
  = Ok (CompactingAction.with_heap (Message.context_heap m) c, false, db).
Proof.
  intros Hm Hfk Hlooking Hfree Hrows Hheap.
  assert (c ∈ DB.compacting_actions db /\
          CompactingAction.ending_message c = Some (Message.id m)) as [Hin Hend].
  { assert (c ∈ [c]) as H by left. rewrite <-Hfk in H.
    apply list_elem_of_filter in H. tauto. }
  unfold get_or_create_by_id_or_message. rewrite Hm, Hfk.
  cbn [objects_get mbind result_bind].
  assert (CompactingAction.with_looking_for_ending_message None
            (CompactingAction.with_ending_message (Some (Message.id m)) c) = c) as ->.
  { destruct c; simpl in *. by subst. }
  unfold save_compacting_action. rewrite Hfree.
  destruct (get_compacting_action_in c db Hin) as [stored ->].
  rewrite (replace_compacting_action_same c _ Hrows).
  cbn [mbind result_bind].
  assert (DB.with_compacting_actions (DB.compacting_actions db) db = db) as ->
    by (by destruct db).
  destruct c; simpl in *. rewrite Hend.
  by destruct (Message.context_heap m).
Qed.

(** The first call when a CompactingAction is found and the message is
    stored: the row is saved with [ending_message] set. *)
Lemma get_or_create_by_id_link message_id t p db m c0 :
  unique_ca_ids db ->
  get_message message_id db = Some m ->
  c0 ∈ DB.compacting_actions db ->
  (forall x, x ∈ DB.compacting_actions db -> x ≠ c0 ->
             CompactingAction.ending_message x ≠ Some (Message.id m)) ->
  let saved := CompactingAction.with_looking_for_ending_message None
                 (CompactingAction.with_ending_message (Some (Message.id m)) c0) in
  forall db1,
    save_compacting_action saved db = Ok db1 ->
    Message.context_heap m ≠ None ->
    get_or_create_by_id_or_message (Some message_id) t p db1
    = Ok (CompactingAction.with_heap (Message.context_heap m) saved, false, db1).
Proof.
  intros Huniq Hm Hin Hothers saved db1 Hsave Hheap.
  unfold save_compacting_action in Hsave.
  destruct (link_taken saved db) eqn:Hfree; [done|].
  change (CompactingAction.id saved) with (CompactingAction.id c0) in Hsave.
  destruct (get_compacting_action_in c0 db Hin) as [stored Hstored].
  rewrite Hstored in Hsave. injection Hsave as <-.
  apply get_or_create_by_id_stored.
  - exact Hm.
  - destruct db as [hs ms l ss]. cbn [DB.compacting_actions DB.with_compacting_actions].
    apply (filter_replace_one _ saved c0); try done.
  - done.
  - by rewrite link_taken_replace.
  - destruct db as [hs ms l ss]. cbn [DB.compacting_actions DB.with_compacting_actions].
    intros x Hx Hid. by apply (replace_compacting_action_rows saved l).
  - exact Hheap.
Qed.

End GetOrCreateByIdOrMessage.

(** X11.  [get_or_create_by_id_or_message] is idempotent.  When a call has
    returned a CompactingAction for a message identity, a second call with
    the same arguments on the resulting database returns the same
    CompactingAction with [created = False] and leaves the database as it
    is: no second CompactingAction is created for the identity. *)
Theorem X11_get_or_create_by_id_or_message_idempotent i t p db c created db' :
  unique_ca_ids db ->
  get_or_create_by_id_or_message i t p db = Ok (c, created, db') ->
  get_or_create_by_id_or_message i t p db' = Ok (c, false, db').
Proof.
  intros Huniq H. destruct i as [message_id|]; [|done].
  unfold get_or_create_by_id_or_message in H.
  destruct (get_message message_id db) as [m|] eqn:Hm.
  - assert (forall c0 db1,
              c0 ∈ DB.compacting_actions db ->
              (forall x, x ∈ DB.compacting_actions db -> x ≠ c0 ->
                         CompactingAction.ending_message x ≠ Some (Message.id m)) ->
              save_compacting_action
                (CompactingAction.with_looking_for_ending_message None
                   (CompactingAction.with_ending_message (Some (Message.id m)) c0)) db
              = Ok db1 ->
              Message.context_heap m ≠ None ->
              get_or_create_by_id_or_message (Some message_id) t p db1
              = Ok (CompactingAction.with_heap (Message.context_heap m)
                      (CompactingAction.with_looking_for_ending_message None
                         (CompactingAction.with_ending_message
                            (Some (Message.id m)) c0)), false, db1)) as Hlink.
    { intros c0 db1 Hin Hothers Hsave Hheap.
      by apply (get_or_create_by_id_link message_id t p db m c0). }
    destruct (objects_get
                (filter (fun c => CompactingAction.ending_message c = Some (Message.id m))
                        (DB.compacting_actions db)))
      as [[c0|]|] eqn:Hfk; cbn [mbind result_bind] in H; [| |done].
    + (* found by its ending message *)
      apply objects_get_Some in Hfk.
      destruct (save_compacting_action _ db) as [db1|] eqn:Hsave; [|done].
      cbn [mbind result_bind] in H.
      destruct (Message.context_heap m) as [hm|] eqn:Hh; [|destruct c0; simpl in H; discriminate H].
      assert (c = CompactingAction.with_heap (Some hm)
                    (CompactingAction.with_looking_for_ending_message None
                       (CompactingAction.with_ending_message (Some (Message.id m)) c0))
              /\ created = false /\ db' = db1) as (-> & -> & ->).
      { destruct c0; simpl in H. by injection H as <- <- <-. }
      apply Hlink; [| |done|done].
      * assert (c0 ∈ [c0]) as Hin by left. rewrite <-Hfk in Hin.
        by apply list_elem_of_filter in Hin as [_ ?].
      * intros x Hx Hne Hend. apply Hne.
        assert (x ∈ [c0]) as Hin; [|by apply list_elem_of_singleton in Hin].
        rewrite <-Hfk. by apply list_elem_of_filter.
    + apply objects_get_None in Hfk.
      destruct (objects_get
                  (filter (fun c => CompactingAction.looking_for_ending_message c
                                    = Some message_id)
                          (DB.compacting_actions db)))
        as [[c0|]|] eqn:Hlk; cbn [mbind result_bind] in H; [| |done].
      * (* found by the identity it waits for *)
        apply objects_get_Some in Hlk.
        destruct (save_compacting_action _ db) as [db1|] eqn:Hsave; [|done].
        cbn [mbind result_bind] in H.
        destruct (Message.context_heap m) as [hm|] eqn:Hh; [|destruct c0; simpl in H; discriminate H].
        assert (c = CompactingAction.with_heap (Some hm)
                      (CompactingAction.with_looking_for_ending_message None
                         (CompactingAction.with_ending_message
                            (Some (Message.id m)) c0))
                /\ created = false /\ db' = db1) as (-> & -> & ->).
        { destruct c0; simpl in H. by injection H as <- <- <-. }
        apply Hlink; [| |done|done].
        -- assert (c0 ∈ [c0]) as Hin by left. rewrite <-Hlk in Hin.
           by apply list_elem_of_filter in Hin as [_ ?].
        -- intros x Hx _ Hend.
           apply (filter_nil_not_elem_of _ _ x Hfk); done.
      * (* created for the stored message *)
        apply objects_get_None in Hlk.
        unfold create_compacting_action in H.
        destruct (link_taken _ db) eqn:Hfree; [done|].
        cbn [mbind result_bind] in H.
        destruct (Message.context_heap m) as [hm|] eqn:Hh; [|done].
        cbn in H. injection H as <- <- <-.
        set (c := CompactingAction.mk (uuid4 db) (Some hm) (Some (Message.id m))
                    None None None t p) in *.
        pose proof (get_or_create_by_id_stored message_id t p
                      (DB.with_compacting_actions (DB.compacting_actions db ++ [c]) db)
                      m c) as Hstored.
        rewrite Hh in Hstored. apply Hstored; clear Hstored.
        -- exact Hm.
        -- destruct db as [hs ms l ss].
           cbn [DB.compacting_actions DB.with_compacting_actions] in *.
           by rewrite filter_app, Hfk, filter_cons_True, filter_nil.
        -- done.
        -- by rewrite link_taken_app_self.
        -- destruct db as [hs ms l ss].
           cbn [DB.compacting_actions DB.with_compacting_actions].
           intros x Hx Hid. apply elem_of_app in Hx as [Hx|Hx].
           ++ exfalso. apply (uuid4_fresh (DB.mk hs ms l ss) (CompactingAction.id x));
                [|done].
              unfold keys_in_use. rewrite !elem_of_app. do 3 right. left.
              by apply (list_elem_of_fmap_2 CompactingAction.id).
           ++ by apply list_elem_of_singleton in Hx.
        -- done.
  - cbn [mbind result_bind] in H.
    destruct (objects_get
                (filter (fun c => CompactingAction.looking_for_ending_message c
                                  = Some message_id)
                        (DB.compacting_actions db)))
      as [[c0|]|] eqn:Hlk; cbn [mbind result_bind] in H; [| |done].
    + (* an orphan that waits for the identity *)
      assert (c = c0 /\ created = false /\ db' = db
              /\ match CompactingAction.ending_message c0,
                       CompactingAction.context_heap c0 with
                 | Some _, None => False
                 | _, _ => True
                 end) as (-> & -> & -> & Hcheck).
      { destruct (CompactingAction.ending_message c0),
                 (CompactingAction.context_heap c0); (done || by injection H). }
      unfold get_or_create_by_id_or_message. rewrite Hm.
      cbn [mbind result_bind]. rewrite Hlk. cbn [mbind result_bind].
      by destruct (CompactingAction.ending_message c0),
                  (CompactingAction.context_heap c0).
    + (* created as an orphan *)
      apply objects_get_None in Hlk.
      unfold create_compacting_action in H.
      rewrite link_taken_unlinked in H by done.
      cbn in H. injection H as <- <- <-.
      unfold get_or_create_by_id_or_message.
      assert (forall l, get_message message_id (DB.with_compacting_actions l db)
                        = get_message message_id db) as -> by done.
      rewrite Hm. cbn [mbind result_bind].
      destruct db as [hs ms l ss].
      cbn [DB.compacting_actions DB.with_compacting_actions] in *.
      rewrite filter_app, Hlk, filter_cons_True, filter_nil by done.
      done.
Qed.

Lemma X11_get_or_create_by_id_or_message_idempotent_witness :
  get_or_create_by_id_or_message (Some 3%N) None None
    (DB.with_compacting_actions
       [CompactingAction.mk 101 (Some 100%N) (Some 3%N) None None None None None]
       (DB.with_compacting_actions [] split_example_db))
  = Ok (CompactingAction.mk 101 (Some 100%N) (Some 3%N) None None None None None, false,
        DB.with_compacting_actions
          [CompactingAction.mk 101 (Some 100%N) (Some 3%N) None None None None None]
          (DB.with_compacting_actions [] split_example_db)).
Proof.
  apply (X11_get_or_create_by_id_or_message_idempotent (Some 3%N) None None
           (DB.with_compacting_actions [] split_example_db) _ true).
  - apply (bool_decide_unpack _). vm_compute. exact I.
  - vm_compute. reflexivity.
Defined.


(** * parse_command_xml *)
Section CommandXml.

Local Abbreviation lt := ("<"%char).
Local Abbreviation chars := list_ascii_of_string.

Lemma search_group_eq d o c m s :
  search_group d o c m s
  = match (if String.prefix o s
           then lazy_group d c m (drop_string (String.length o) s)
           else None) with
    | Some g => Some g
    | None =>
        match s with
        | EmptyString => None
        | String _ s' => search_group d o c m s'
        end
    end.
Proof. by destruct s. Qed.

Lemma search_group_skip_char d o c m a s :
  String.prefix o (String a s) = false ->
  search_group d o c m (String a s) = search_group d o c m s.
Proof. intros H. by rewrite search_group_eq, H. Qed.

Lemma prefix_lt_other o a s : a ≠ lt -> String.prefix (String lt o) (String a s) = false.
Proof.
  intros Ha.
  change (String.prefix (String lt o) (String a s))
    with (if ascii_dec lt a then String.prefix o s else false).
  destruct (ascii_dec lt a); [congruence|done].
Qed.

(** A text without "<" holds no tag. *)
Lemma search_group_skip d o c m pre s :
  lt ∉ chars pre ->
  search_group d (String lt o) c m (pre ++ s)%string
  = search_group d (String lt o) c m s.
Proof.
  induction pre as [|a pre IH]; intros Hpre; [done|].
  cbn [chars] in Hpre. apply not_elem_of_cons in Hpre as [Ha Hpre].
  change (String a pre ++ s)%string with (String a (pre ++ s)%string).
  rewrite search_group_skip_char by (by apply prefix_lt_other).
  by apply IH.
Qed.

Lemma search_group_none d o c m s :
  lt ∉ chars s -> search_group d (String lt o) c m s = None.
Proof.
  induction s as [|a s IH]; intros Hs; [done|].
  cbn [chars] in Hs. apply not_elem_of_cons in Hs as [Ha Hs].
  rewrite search_group_skip_char by (by apply prefix_lt_other).
  by apply IH.
Qed.

Lemma prefix_append s t : String.prefix s (s ++ t)%string = true.
Proof.
  induction s as [|a s IH]; [by destruct t|].
  change (String.prefix (String a s) (String a s ++ t)%string)
    with (if ascii_dec a a then String.prefix s (s ++ t)%string else false).
  by destruct (ascii_dec a a).
Qed.

Lemma drop_string_append s t : drop_string (String.length s) (s ++ t)%string = t.
Proof. induction s as [|a s IH]; simpl; [by destruct t|done]. Qed.

Lemma lazy_group_body_0 d cl body rest :
  lt ∉ chars body ->
  (d = false -> "010"%char ∉ chars body) ->
  lazy_group d (String lt cl) O (body ++ String lt cl ++ rest)%string = Some body.
Proof.
  induction body as [|a body IH]; intros Hlt Hnl.
  - change ("" ++ String lt cl ++ rest)%string with (String lt cl ++ rest)%string.
    destruct (String lt cl ++ rest)%string eqn:Heq; [done|].
    cbn [lazy_group]. rewrite <-Heq. by rewrite prefix_append.
  - cbn [chars] in Hlt. apply not_elem_of_cons in Hlt as [Ha Hlt].
    change (String a body ++ String lt cl ++ rest)%string
      with (String a (body ++ String lt cl ++ rest)%string).
    cbn [lazy_group]. rewrite prefix_lt_other by done.
    assert (negb d && Ascii.eqb a "010"%char = false) as ->.
    { destruct d; [done|]. simpl. apply Ascii.eqb_neq. intros ->.
      apply (Hnl eq_refl). left. }
    rewrite IH; [done|done|].
    intros Hd. specialize (Hnl Hd). cbn [chars] in Hnl.
    by apply not_elem_of_cons in Hnl as [_ ?].
Qed.

Lemma lazy_group_body d cl min body rest :
  lt ∉ chars body ->
  (d = false -> "010"%char ∉ chars body) ->
  (min <= String.length body)%nat ->
  lazy_group d (String lt cl) min (body ++ String lt cl ++ rest)%string = Some body.
Proof.
  intros Hlt Hnl Hmin. destruct min as [|min]; [by apply lazy_group_body_0|].
  destruct body as [|a body]; [simpl in Hmin; lia|].
  cbn [chars] in Hlt. apply not_elem_of_cons in Hlt as [Ha Hlt].
  change (String a body ++ String lt cl ++ rest)%string
    with (String a (body ++ String lt cl ++ rest)%string).
  cbn [lazy_group].
  assert (negb d && Ascii.eqb a "010"%char = false) as ->.
  { destruct d; [done|]. simpl. apply Ascii.eqb_neq. intros ->.
    apply (Hnl eq_refl). left. }
  rewrite lazy_group_body_0; [done|done|].
  intros Hd. specialize (Hnl Hd). cbn [chars] in Hnl.
  by apply not_elem_of_cons in Hnl as [_ ?].
Qed.

(** The tag at the head of the text. *)
Lemma search_group_here d o cl min body rest :
  lt ∉ chars body ->
  (d = false -> "010"%char ∉ chars body) ->
  (min <= String.length body)%nat ->
  search_group d o (String lt cl) min (o ++ body ++ String lt cl ++ rest)%string
  = Some body.
Proof.
  intros Hlt Hnl Hmin.
  rewrite search_group_eq, prefix_append, drop_string_append.
  by rewrite lazy_group_body.
Qed.

(** Another tag, or a closing tag, is passed over. *)
Lemma search_group_skip_tag d o c m tag s :
  String.prefix (String lt o) (String lt (tag ++ s)%string) = false ->
  lt ∉ chars tag ->
  search_group d (String lt o) c m (String lt tag ++ s)%string
  = search_group d (String lt o) c m s.
Proof.
  intros Hp Htag.
  change (String lt tag ++ s)%string with (String lt (tag ++ s)%string).
  rewrite search_group_skip_char by done. by apply search_group_skip.
Qed.

End CommandXml.

(** X12.  [parse_command_xml] returns a text that holds no "<" as it is:
    neither pattern can match, and the result is the plain text. *)
Theorem X12_parse_command_xml_plain text :
  "<"%char ∉ list_ascii_of_string text ->
  parse_command_xml text = PlainText text.
Proof.
  intros Hlt. unfold parse_command_xml.
  by rewrite !search_group_none.
Qed.

Lemma X12_parse_command_xml_plain_witness :
  parse_command_xml "Status dialog dismissed" = PlainText "Status dialog dismissed".
Proof.
  apply X12_parse_command_xml_plain.
  apply (bool_decide_unpack _). vm_compute. exact I.
Defined.

Local Ltac tag_side :=
  first [ reflexivity | apply (bool_decide_unpack _); vm_compute; exact I ].

(** X13.  [parse_command_xml] reads back a slash command.  For a text made
    of the three tags in this order, with any text that holds no "<" before,
    between and after them, the result is the slash command with the name and
    the message as they stand between their tags (not empty, on one line) and
    the arguments stripped of surrounding whitespace; [raw_xml] is the whole
    text. *)
Theorem X13_parse_command_xml_slash_command p0 n s1 m s2 a s3 :
  "<"%char ∉ list_ascii_of_string p0 ->
  "<"%char ∉ list_ascii_of_string n ->
  "<"%char ∉ list_ascii_of_string s1 ->
  "<"%char ∉ list_ascii_of_string m ->
  "<"%char ∉ list_ascii_of_string s2 ->
  "<"%char ∉ list_ascii_of_string a ->
  "<"%char ∉ list_ascii_of_string s3 ->
  "010"%char ∉ list_ascii_of_string n ->
  "010"%char ∉ list_ascii_of_string m ->
  n ≠ "" -> m ≠ "" ->
  let text :=
    (p0 ++ "<command-name>" ++ n ++ "</command-name>" ++ s1
        ++ "<command-message>" ++ m ++ "</command-message>" ++ s2
        ++ "<command-args>" ++ a ++ "</command-args>" ++ s3)%string in
  parse_command_xml text = SlashCommand n m (str_strip a) text.
Proof.
  intros Hp0 Hn Hs1 Hm Hs2 Ha Hs3 Hnl Hml Hn0 Hm0 text.
  assert (forall x : string, x ≠ "" -> (1 <= String.length x)%nat) as Hlen.
  { intros [|c x] Hx; [done|]. simpl. lia. }
  unfold parse_command_xml, text.
  rewrite (search_group_skip false _ _ _ p0) by done.
  rewrite (search_group_here false "<command-name>" "/command-name>" 1 n)
    by auto.
  do 2 f_equal.
  - rewrite (search_group_skip false _ _ _ p0) by done.
    rewrite (search_group_skip_tag false _ _ _ "command-name>") by tag_side.
    rewrite (search_group_skip false _ _ _ n) by done.
    rewrite (search_group_skip_tag false _ _ _ "/command-name>") by tag_side.
    rewrite (search_group_skip false _ _ _ s1) by done.
    by rewrite (search_group_here false "<command-message>" "/command-message>" 1 m)
      by auto.
  - rewrite (search_group_skip true _ _ _ p0) by done.
    rewrite (search_group_skip_tag true _ _ _ "command-name>") by tag_side.
    rewrite (search_group_skip true _ _ _ n) by done.
    rewrite (search_group_skip_tag true _ _ _ "/command-name>") by tag_side.
    rewrite (search_group_skip true _ _ _ s1) by done.
    rewrite (search_group_skip_tag true _ _ _ "command-message>") by tag_side.
    rewrite (search_group_skip true _ _ _ m) by done.
    rewrite (search_group_skip_tag true _ _ _ "/command-message>") by tag_side.
    rewrite (search_group_skip true _ _ _ s2) by done.
    by rewrite (search_group_here true "<command-args>" "/command-args>" 0 a)
      by (done || simpl; lia).
Qed.

Lemma X13_parse_command_xml_slash_command_witness :
  parse_command_xml
    ("<command-name>/model</command-name>" ++ String "010" "  "
     ++ "<command-message>model</command-message>" ++ String "010" "  "
     ++ "<command-args> opus </command-args>")%string
  = SlashCommand "/model" "model" "opus"
      ("<command-name>/model</command-name>" ++ String "010" "  "
       ++ "<command-message>model</command-message>" ++ String "010" "  "
       ++ "<command-args> opus </command-args>")%string.
Proof.
  apply (X13_parse_command_xml_slash_command
           "" "/model" (String "010" "  ") "model" (String "010" "  ") " opus " "");
    try (apply (bool_decide_unpack _); vm_compute; exact I); discriminate.
Defined.

(** X14.  [parse_command_xml] reads back a command output.  A text with
    the output between the stdout tags, itself free of "<" and with no "<"
    before and after the tags, is the command output with the text between
    the tags as it is, line breaks included, and not stripped. *)
Theorem X14_parse_command_xml_command_output p0 out s1 :
  "<"%char ∉ list_ascii_of_string p0 ->
  "<"%char ∉ list_ascii_of_string out ->
  "<"%char ∉ list_ascii_of_string s1 ->
  let text :=
    (p0 ++ "<local-command-stdout>" ++ out ++ "</local-command-stdout>" ++ s1)%string in
  parse_command_xml text = CommandOutput out text.
Proof.
  intros Hp0 Hout Hs1 text. unfold parse_command_xml, text.
  rewrite (search_group_skip false _ _ _ p0) by done.
  rewrite (search_group_skip_tag false _ _ _ "local-command-stdout>") by tag_side.
  rewrite (search_group_skip false _ _ _ out) by done.
  rewrite (search_group_skip_tag false _ _ _ "/local-command-stdout>") by tag_side.
  rewrite search_group_none by done.
  rewrite (search_group_skip true _ _ _ p0) by done.
  by rewrite (search_group_here true "<local-command-stdout>" "/local-command-stdout>"
                O out) by (done || simpl; lia).
Qed.

Lemma X14_parse_command_xml_command_output_witness :
  parse_command_xml
    ("<local-command-stdout>Set model to opus" ++ String "010" "done"
     ++ "</local-command-stdout>")%string
  = CommandOutput ("Set model to opus" ++ String "010" "done")%string
      ("<local-command-stdout>Set model to opus" ++ String "010" "done"
       ++ "</local-command-stdout>")%string.
Proof.
  apply (X14_parse_command_xml_command_output
           "" ("Set model to opus" ++ String "010" "done")%string "");
    apply (bool_decide_unpack _); vm_compute; exact I.
Defined.


(** * RetryDetector.normalize_content *)
Section Normalize.
Import Retry.

(** No whitespace at the head. *)
Local Abbreviation starts_ok l :=
  (match l with a :: _ => isspace a = false | [] => True end).

Lemma lstrip_starts_ok l : starts_ok (lstrip l).
Proof.
  induction l as [|a l IH]; simpl; [done|].
  destruct (isspace a) eqn:Ha; [exact IH|done].
Qed.

Lemma lstrip_id l : starts_ok l -> lstrip l = l.
Proof. destruct l as [|a l]; simpl; [done|]. by intros ->. Qed.

(** [lstrip] returns a suffix. *)
Lemma lstrip_suffix l : exists pre, l = pre ++ lstrip l.
Proof.
  induction l as [|a l [pre IH]]; simpl; [by exists []|].
  destruct (isspace a); [|by exists []].
  exists (a :: pre). simpl. by rewrite <-IH.
Qed.

Lemma starts_ok_rev_suffix pre l :
  l ≠ [] -> starts_ok (rev (pre ++ l)) -> starts_ok (rev l).
Proof.
  intros Hl. rewrite rev_app_distr.
  destruct (rev l) as [|a r] eqn:Hr; [|done].
  exfalso. apply Hl. apply (f_equal (@rev _)) in Hr.
  by rewrite rev_involutive in Hr.
Qed.

Lemma strip_trimmed l : starts_ok (strip l) /\ starts_ok (rev (strip l)).
Proof.
  unfold strip. set (m := lstrip l).
  assert (starts_ok m) as Hm by apply lstrip_starts_ok.
  rewrite rev_involutive. split; [|apply lstrip_starts_ok].
  destruct (lstrip_suffix (rev m)) as [pre Hpre].
  destruct (lstrip (rev m)) as [|a r] eqn:Hr; [done|].
  apply (starts_ok_rev_suffix pre); [done|].
  rewrite <-Hpre, rev_involutive. exact Hm.
Qed.

Lemma strip_id l : starts_ok l -> starts_ok (rev l) -> strip l = l.
Proof.
  intros H1 H2. unfold strip.
  by rewrite (lstrip_id l), (lstrip_id (rev l)), rev_involutive.
Qed.

Lemma sub_ws_idempotent l : forall b, sub_ws b (sub_ws b l) = sub_ws b l.
Proof.
  induction l as [|a l IH]; intros b; simpl; [done|].
  destruct (isspace a) eqn:Ha.
  - destruct b; [apply IH|]. simpl. by rewrite IH.
  - simpl. by rewrite Ha, IH.
Qed.

Lemma sub_ws_starts_ok l : starts_ok l -> starts_ok (sub_ws false l).
Proof. destruct l as [|a l]; simpl; [done|]. intros Ha. by rewrite Ha. Qed.

Lemma sub_ws_snoc l a : forall b,
  isspace a = false -> sub_ws b (l ++ [a]) = sub_ws b l ++ [a].
Proof.
  induction l as [|x l IH]; intros b Ha; simpl; [by rewrite Ha|].
  destruct (isspace x); [destruct b|]; simpl; by rewrite IH.
Qed.

Lemma sub_ws_ends_ok l : starts_ok (rev l) -> starts_ok (rev (sub_ws false l)).
Proof.
  destruct l as [|a l _] using rev_ind; [done|].
  rewrite rev_app_distr. simpl. intros Ha.
  by rewrite sub_ws_snoc, rev_app_distr.
Qed.

Lemma normalized_trimmed l :
  let w := sub_ws false (strip l) in
  starts_ok w /\ starts_ok (rev w) /\ sub_ws false w = w.
Proof.
  intros w. destruct (strip_trimmed l) as [H1 H2].
  split; [by apply sub_ws_starts_ok|]. split; [by apply sub_ws_ends_ok|].
  apply sub_ws_idempotent.
Qed.

End Normalize.

(** X15.  [RetryDetector.normalize_content] is idempotent, and what it
    returns is trimmed: it neither starts nor ends with whitespace.  A
    normalized content stored in the detector compares equal to itself
    normalized again. *)
Theorem X15_normalize_content_idempotent content :
  Retry.normalize_content (Retry.normalize_content content)
  = Retry.normalize_content content
  /\ match list_ascii_of_string (Retry.normalize_content content) with
     | a :: _ => Retry.isspace a = false
     | [] => True
     end
  /\ match rev (list_ascii_of_string (Retry.normalize_content content)) with
     | a :: _ => Retry.isspace a = false
     | [] => True
     end.
Proof.
  unfold Retry.normalize_content.
  destruct (normalized_trimmed (list_ascii_of_string content)) as (H1 & H2 & H3).
  set (w := Retry.sub_ws false (Retry.strip (list_ascii_of_string content))) in *.
  rewrite !list_ascii_of_string_of_list_ascii.
  split; [|done]. by rewrite strip_id, H3.
Qed.


(** * Message.sanitize_content *)
Section Sanitize.

Lemma JSON_induction (P : JSON -> Prop) :
  P JNull -> (forall b, P (JBool b)) -> (forall n, P (JNumber n)) ->
  (forall s, P (JStr s)) ->
  (forall items, Forall P items -> P (JList items)) ->
  (forall items, Forall (fun kv => P kv.2) items -> P (JDict items)) ->
  forall content, P content.
Proof.
  intros Hnull Hbool Hnumber Hstr Hlist Hdict. fix IH 1.
  intros [|b|n|s|items|items]; [done|done|done|done| |].
  - apply Hlist. induction items as [|x items IHitems]; constructor; [apply IH|done].
  - apply Hdict. induction items as [|[k v] items IHitems]; constructor; [apply IH|done].
Qed.

Local Abbreviation no_null s :=
  (forallb (fun a => negb (Ascii.eqb a "000"%char)) (list_ascii_of_string s)).

Lemma remove_null_bytes_free s : no_null (remove_null_bytes s) = true.
Proof.
  induction s as [|a s IH]; simpl; [done|].
  destruct (Ascii.eqb a "000"%char) eqn:Ha; [done|]. simpl. by rewrite Ha.
Qed.

Lemma remove_null_bytes_id s : no_null s = true <-> remove_null_bytes s = s.
Proof.
  split.
  - induction s as [|a s IH]; simpl; [done|].
    destruct (Ascii.eqb a "000"%char); [done|]. simpl. intros Hs. by rewrite IH.
  - intros <-. apply remove_null_bytes_free.
Qed.

Lemma forallb_map_true {A} (f : A -> bool) (g : A -> A) l :
  Forall (fun x => f (g x) = true) l -> forallb f (map g l) = true.
Proof. induction 1 as [|x l Hx _ IH]; simpl; [done|]. by rewrite Hx, IH. Qed.

Lemma sanitize_content_free content : null_free (sanitize_content content) = true.
Proof.
  induction content as [| | | s | items IH | items IH] using JSON_induction;
    simpl; try done.
  - apply remove_null_bytes_free.
  - by apply forallb_map_true.
  - apply forallb_map_true. eapply Forall_impl; [exact IH|]. by intros [k v].
Qed.

Lemma sanitize_content_id content :
  null_free content = true -> sanitize_content content = content.
Proof.
  induction content as [| | | s | items IH | items IH] using JSON_induction;
    simpl; try done.
  - intros Hs. f_equal. by apply remove_null_bytes_id.
  - intros Hitems. f_equal. induction IH as [|x items Hx _ IHitems]; [done|].
    simpl in *. apply andb_prop in Hitems as [H1 H2]. by rewrite Hx, IHitems.
  - intros Hitems. f_equal. induction IH as [|[k v] items Hx _ IHitems]; [done|].
    simpl in *. apply andb_prop in Hitems as [H1 H2]. by rewrite Hx, IHitems.
Qed.

End Sanitize.

(** X16.  [Message.sanitize_content] leaves no null byte in any str value,
    at any depth of lists and dicts; it is idempotent; and it returns a
    content unchanged exactly when no str value of it holds a null byte. *)
Theorem X16_sanitize_content_null_free content :
  null_free (sanitize_content content) = true
  /\ sanitize_content (sanitize_content content) = sanitize_content content
  /\ (sanitize_content content = content <-> null_free content = true).
Proof.
  split; [apply sanitize_content_free|]. split.
  - apply sanitize_content_id, sanitize_content_free.
  - split; [|apply sanitize_content_id].
    intros <-. apply sanitize_content_free.
Qed.

(** * ContextHeap.check_timestamps_against_message_numbers *)
Section Timestamps.

Lemma violations_nil l :
  Forall (fun m => Message.timestamp m ≠ None) l ->
  violations l = [] <-> Sorted Z.le (omap Message.timestamp l).
Proof.
  induction 1 as [|x l Hx Hl IH]; [by split; [constructor|]|].
  destruct (Message.timestamp x) as [tx|] eqn:Htx; [|done].
  destruct Hl as [|y l Hy Hl].
  - simpl. rewrite Htx. simpl. split; [repeat constructor|done].
  - destruct (Message.timestamp y) as [ty|] eqn:Hty; [|done].
    change (violations (x :: y :: l))
      with ((if timestamp_lt y x
             then [(Message.message_number y, Message.timestamp y,
                    Message.message_number x, Message.timestamp x)]
             else []) ++ violations (y :: l)).
    assert (omap Message.timestamp (x :: y :: l)
            = tx :: omap Message.timestamp (y :: l)) as -> by (simpl; by rewrite Htx).
    assert (exists rest, omap Message.timestamp (y :: l) = ty :: rest) as [rest Hrest]
      by (simpl; rewrite Hty; eauto).
    rewrite Hrest in IH |- *.
    unfold timestamp_lt. rewrite Htx, Hty.
    destruct (Z.ltb_spec ty tx) as [Hlt|Hle].
    + split; [done|]. intros Hs. apply Sorted_inv in Hs as [_ Hhd].
      apply HdRel_inv in Hhd. lia.
    + simpl. rewrite IH. split.
      * intros Hs. constructor; [done|]. by constructor.
      * by intros [? _]%Sorted_inv.
Qed.

End Timestamps.

(** X17.  [check_timestamps_against_message_numbers] answers [valid]
    exactly when the timestamps of the heap's messages that have one, taken
    in the order of [message_number], never decrease; the messages without
    timestamp are passed over. *)
Theorem X17_check_timestamps_valid_iff_sorted self db :
  (check_timestamps_against_message_numbers self db).1 = true
  <-> Sorted Z.le
        (omap Message.timestamp
           (order_by_message_number
              (filter (fun m => Message.timestamp m ≠ None) (heap_messages self db)))).
Proof.
  unfold check_timestamps_against_message_numbers. cbn [fst].
  rewrite <-violations_nil.
  - destruct (violations _); simpl; by split.
  - apply Forall_forall. intros m Hm.
    rewrite order_by_message_number_perm in Hm.
    by apply list_elem_of_filter in Hm as [? _].
Qed.

(** * Message.highest_known_parent *)
Section Parents.

Lemma parent_of_stored m p db :
  Message.parent m = Some (Message.id p) ->
  get_message (Message.id p) db = Some p ->
  parent_of m db = Ok (Some p).
Proof. intros Hp Hget. unfold parent_of. by rewrite Hp, Hget. Qed.

Lemma climb_chain db p top n :
  parent_chain db p top n ->
  Message.parent top = None
  /\ forall fuel, (n <= fuel)%nat -> climb fuel p db = Some (Ok top).
Proof.
  induction 1 as [m Hm|m p top n Hp Hget _ [IH1 IH2]].
  - split; [done|]. intros [|fuel] Hfuel; [lia|].
    simpl. unfold parent_of. by rewrite Hm.
  - split; [done|]. intros [|fuel] Hfuel; [lia|].
    simpl. rewrite (parent_of_stored m p db Hp Hget). apply IH2. lia.
Qed.

Lemma climb_forever db :
  (forall m, m ∈ DB.messages db ->
     exists p, Message.parent m = Some (Message.id p)
               /\ get_message (Message.id p) db = Some p) ->
  forall fuel m, m ∈ DB.messages db -> climb fuel m db = None.
Proof.
  intros Hall. induction fuel as [|fuel IH]; intros m Hm; [done|].
  destruct (Hall m Hm) as (p & Hp & Hget).
  simpl. rewrite (parent_of_stored m p db Hp Hget). apply IH.
  by apply get_message_Some in Hget as [? _].
Qed.

End Parents.

(** X18.  [Message.highest_known_parent] returns the top of the chain of
    parents.  When the parents of a message lead, in n steps, to a message
    without parent, the loop ends within n rounds and returns that
    message. *)
Theorem X18_highest_known_parent_top self p top n fuel db :
  Message.parent self = Some (Message.id p) ->
  get_message (Message.id p) db = Some p ->
  parent_chain db p top n ->
  (n <= fuel)%nat ->
  highest_known_parent fuel self db = Some (Ok top)
  /\ Message.parent top = None.
Proof.
  intros Hp Hget Hchain Hfuel.
  destruct (climb_chain db p top n Hchain) as [Htop Hclimb].
  split; [|done]. unfold highest_known_parent.
  rewrite (parent_of_stored self p db Hp Hget). by apply Hclimb.
Qed.

Lemma X18_highest_known_parent_top_witness :
  highest_known_parent 2 (plain 3 (Some 3%Z) (Some 100%N) (Some 2%N)) split_example_db
  = Some (Ok (plain 1 (Some 1%Z) (Some 100%N) None))
  /\ Message.parent (plain 1 (Some 1%Z) (Some 100%N) None) = None.
Proof.
  apply (X18_highest_known_parent_top _ (plain 2 (Some 2%Z) (Some 100%N) (Some 1%N))
           _ 2).
  - reflexivity.
  - reflexivity.
  - apply (parent_chain_up _ _ (plain 1 (Some 1%Z) (Some 100%N) None)).
    + reflexivity.
    + reflexivity.
    + by apply parent_chain_top.
  - lia.
Defined.

(** X19.  [Message.highest_known_parent] has no answer on a cycle, and
    none for a message without parent.  In a table where every message has a
    stored parent (so the parents run in a cycle) the loop is still running
    after any number of rounds.  For a message without parent, [parent] is
    None and [parent.parent] raises AttributeError: the message itself is not
    returned. *)
Theorem X19_highest_known_parent_no_answer self db fuel :
  (forall m, m ∈ DB.messages db ->
     exists p, Message.parent m = Some (Message.id p)
               /\ get_message (Message.id p) db = Some p) ->
  self ∈ DB.messages db ->
  highest_known_parent fuel self db = None
  /\ highest_known_parent fuel (Message.with_parent None self) db
     = Some (Raise AttributeError).
Proof.
  intros Hall Hself. split; [|done].
  destruct (Hall self Hself) as (p & Hp & Hget).
  unfold highest_known_parent. rewrite (parent_of_stored self p db Hp Hget).
  apply climb_forever; [done|]. by apply get_message_Some in Hget as [? _].
Qed.

Lemma X19_highest_known_parent_no_answer_witness :
  highest_known_parent 1000 (plain 1 None None (Some 2%N))
    (DB.with_messages [plain 1 None None (Some 2%N); plain 2 None None (Some 1%N)]
                      DB.empty) = None
  /\ highest_known_parent 1000
       (Message.with_parent None (plain 1 None None (Some 2%N)))
       (DB.with_messages [plain 1 None None (Some 2%N); plain 2 None None (Some 1%N)]
                         DB.empty)
     = Some (Raise AttributeError).
Proof.
  apply X19_highest_known_parent_no_answer.
  - intros m Hm. apply elem_of_cons in Hm as [->|Hm].
    + by exists (plain 2 None None (Some 1%N)).
    + apply list_elem_of_singleton in Hm as ->.
      by exists (plain 1 None None (Some 2%N)).
  - left.
Defined.

(** * ToolUse.get_result and ToolResult.get_tool_use *)

Section Tools.

(** The rows that satisfy [P] when one stored row is the only one. *)
Lemma filter_only (P : Message.t -> Prop) `{!forall x, Decision (P x)} t l :
  NoDup (map Message.id l) -> t ∈ l -> P t ->
  (forall x, x ∈ l -> P x -> x = t) ->
  filter P l = [t].
Proof.
  induction l as [|x l IH]; intros Hnd Hin Ht Honly; [by inv Hin|].
  cbn [map] in Hnd. apply NoDup_cons in Hnd as [Hx Hnd].
  rewrite filter_cons. destruct (decide (P x)) as [HPx|HPx].
  - rewrite (Honly x) by (done || left). f_equal.
    apply filter_keeps_none, Forall_forall. intros y Hy HPy.
    apply Hx. rewrite (Honly x) by (done || left).
    rewrite <-(Honly y) by (done || by right).
    by apply (list_elem_of_fmap_2 Message.id).
  - apply IH; [done| |done|].
    + apply elem_of_cons in Hin as [->|Hin]; [done|done].
    + intros y Hy. apply Honly. by right.
Qed.

End Tools.

(** X20.  From a tool call to its result and back.  When [get_result]
    finds the ToolResult of a stored ToolUse, and no other ToolUse carries the
    same [tool_id], [get_tool_use] of that result is the ToolUse. *)
Theorem X20_get_result_get_tool_use tool_use tool_result db :
  unique_ids db ->
  tool_use ∈ DB.messages db ->
  Message.cls tool_use = ClsToolUse ->
  (forall u, u ∈ DB.messages db -> Message.cls u = ClsToolUse ->
             Message.tool_id u = Message.tool_id tool_use -> u = tool_use) ->
  get_result tool_use db = Ok (Some tool_result) ->
  Message.cls tool_result = ClsToolResult
  /\ Message.tool_use_id tool_result = Message.tool_id tool_use
  /\ get_tool_use tool_result db = Ok (Some tool_use).
Proof.
  intros Huniq Hin Hcls Honly Hres. unfold get_result in Hres.
  apply objects_get_Some in Hres.
  assert (tool_result ∈ [tool_result]) as Hr by left.
  rewrite <-Hres in Hr. apply list_elem_of_filter in Hr as [[Hrc Hid] _].
  split; [done|]. split; [done|]. unfold get_tool_use. rewrite Hid.
  rewrite (filter_only _ tool_use); try done.
  intros x Hx [Hx1 Hx2]. by apply Honly.
Qed.

Lemma X20_get_result_get_tool_use_witness :
  Message.cls (with_tool_result "toolu_01" false
                 (new_message 9 ClsToolResult (CStr "ok") "tool-result" "f" None))
  = ClsToolResult
  /\ Message.tool_use_id
       (with_tool_result "toolu_01" false
          (new_message 9 ClsToolResult (CStr "ok") "tool-result" "f" None))
     = Message.tool_id
         (with_tool "Read" "toolu_01"
            (new_message 8 ClsToolUse (CToolInput "{}") "magent" "f" None))
  /\ get_tool_use
       (with_tool_result "toolu_01" false
          (new_message 9 ClsToolResult (CStr "ok") "tool-result" "f" None))
       (DB.with_messages
          [with_tool "Read" "toolu_01"
             (new_message 8 ClsToolUse (CToolInput "{}") "magent" "f" None);
           with_tool_result "toolu_01" false
             (new_message 9 ClsToolResult (CStr "ok") "tool-result" "f" None)]
          DB.empty)
     = Ok (Some (with_tool "Read" "toolu_01"
                   (new_message 8 ClsToolUse (CToolInput "{}") "magent" "f" None))).
Proof.
  apply X20_get_result_get_tool_use.
  - apply (bool_decide_unpack _). vm_compute. exact I.
  - left.
  - reflexivity.
  - intros u Hu Hc Ht. apply elem_of_cons in Hu as [->|Hu]; [done|].
    apply list_elem_of_singleton in Hu as ->. discriminate.
  - reflexivity.
Defined.


(** * The import loop and the ordinals *)
Section LoopOrdinals.

(** The ordinal invariant of every heap, and the primary key: both are
    read off the places of the messages. *)
Local Abbreviation well_numbered db :=
  (unique_ids db /\ forall h, ordinal_invariant h db).








End LoopOrdinals.

Section LoopMessages.







End LoopMessages.

Section LoopSteps.

Local Abbreviation well_numbered db :=
  (unique_ids db /\ forall h, ordinal_invariant h db).






End LoopSteps.




(** * The watcher *)
Section Watcher.


Lemma message_defaults_root et event u filename username d rcp always :
  message_defaults et event u filename username = Ok (d, rcp, always) ->
  Message.parent d = None.
Proof.
  unfold message_defaults, content_items.
  destruct et; try discriminate;
    repeat (first [discriminate | case_match | destruct (parse_command_xml _)
                  | progress simpl]);
    intros Hd; simplify_eq; done.
Qed.

(** The import of a new line that names no parent. *)
Lemma import_root_line event era filename username db et u d rcp always :
  unique_ids db ->
  detect_event_type_claude_code_v2 event = Ok et ->
  Event.uuid event = Some u ->
  Event.parentUuid event = None ->
  message_defaults et event u filename username = Ok (d, rcp, always) ->
  get_message u db = None ->
  exists m db1,
    import_line_from_claude_code_v2 event era filename username db
    = Ok (ImpMessage m, true, db1)
    /\ m = Message.with_recipients [rcp] d
    /\ get_message u db1 = Some m
    /\ unique_ids db1
    /\ DB.heaps db1 = DB.heaps db.
Proof.
  intros Huniq Hdet Hu Hroot Hdef Hget.
  rewrite (import_line_message _ _ _ _ _ _ _ _ _ _ Hdet Hu Hdef).
  destruct (message_defaults_new _ _ _ _ _ _ _ _ Hdef) as (Hid & _ & Hrcp).
  unfold get_or_create. rewrite Hid, Hget, Hroot.
  cbn [mbind result_bind orb]. unfold recipients_add. rewrite Hrcp.
  rewrite bool_decide_eq_false_2 by (by intros ?%elem_of_nil).
  cbn [mbind result_bind app].
  eexists _, _. split; [done|]. split; [done|].
  destruct db as [hs ms cs ss]. unfold get_message, unique_ids in *.
  cbn [DB.messages DB.with_messages DB.heaps] in *.
  split; [|split; [|done]].
  - apply (find_replace_message _ _ _ d); [done|].
    by apply (get_message_app_new u (DB.mk hs ms cs ss) d).
  - rewrite replace_message_ids, map_app.
    apply NoDup_app. split; [done|]. split; [|apply NoDup_singleton].
    intros i Hi Hi'. apply list_elem_of_singleton in Hi' as ->. simpl in Hi.
    rewrite Hid in Hi.
    by apply (get_message_None_ids u (DB.mk hs ms cs ss) Hget).
Qed.

End Watcher.



(** X23.  The watcher and the first line of a conversation.  For a line of
    a message type whose identity is not stored and that names no parent,
    [_import_line_local] stores the message, opens one heap with a new key in
    the era (POST_COMPACTING for a continuation message, FRESH otherwise),
    makes the message the only message of that heap, with the ordinal 1, and
    takes the heap as [current_heap]. *)
Theorem X23_watcher_opens_heap line era filename username current_heap db
    et u d rcp always :
  unique_ids db ->
  detect_event_type_claude_code_v2 line = Ok et ->
  Event.uuid line = Some u ->
  Event.parentUuid line = None ->
  message_defaults et line u filename username = Ok (d, rcp, always) ->
  get_message u db = None ->
  exists heap db',
    _import_line_local line era filename username current_heap db
    = Ok (Some heap, db')
    /\ get_heap heap db = None
    /\ DB.heaps db'
       = DB.heaps db
         ++ [ContextHeap.mk heap era
               (if Message.is_continuation_message d then POST_COMPACTING else FRESH)
               None]
    /\ heap_messages heap db'
       = [Message.with_number (Some 1%Z)
            (Message.with_heap (Some heap) (Message.with_recipients [rcp] d))]
    /\ ordinal_invariant heap db'.
Proof.
  intros Huniq Hdet Hu Hroot Hdef Hget.
  destruct (import_root_line line era filename username db et u d rcp always
              Huniq Hdet Hu Hroot Hdef Hget) as (m & db1 & Himp & -> & Hm & Hu1 & Hh1).
  destruct (message_defaults_new _ _ _ _ _ _ _ _ Hdef) as (_ & Hheap & _).
  pose proof (message_defaults_root _ _ _ _ _ _ _ _ Hdef) as Hparent.
  destruct (assign_heap_opens_heap_spec (Message.with_recipients [rcp] d) era
              current_heap db1 None Hu1)
    as (db' & Hres & Hnew & Hheaps & Hrows & _ & Hinv & _).
  { exact Hheap. }
  { unfold parent_of. cbn. by rewrite Hparent. }
  { done. }
  { right. by left. }
  exists (uuid4 db1), db'. split; [|split; [|split; [|split]]].
  - unfold _import_line_local. rewrite Himp. cbn [mbind result_bind negb].
    by rewrite Hres.
  - unfold get_heap in *. by rewrite <-Hh1.
  - rewrite Hheaps, Hh1. done.
  - exact Hrows.
  - exact Hinv.
Qed.

Lemma X23_watcher_opens_heap_witness :
  exists heap db',
    _import_line_local first_line 7 "f" "justin" None DB.empty = Ok (Some heap, db')
    /\ get_heap heap DB.empty = None
    /\ DB.heaps db'
       = DB.heaps DB.empty
         ++ [ContextHeap.mk heap 7
               (if Message.is_continuation_message
                     (new_message 5 ClsMessage (CItems [ItText (Some "hello")])
                        "justin" "f" (Some 1000%Z))
                then POST_COMPACTING else FRESH)
               None]
    /\ heap_messages heap db'
       = [Message.with_number (Some 1%Z)
            (Message.with_heap (Some heap)
               (Message.with_recipients ["magent"]
                  (new_message 5 ClsMessage (CItems [ItText (Some "hello")])
                     "justin" "f" (Some 1000%Z))))]
    /\ ordinal_invariant heap db'.
Proof.
  apply (X23_watcher_opens_heap first_line 7 "f" "justin" None DB.empty
           ET_regular_message 5 _ "magent" false).
  - apply NoDup_nil_2.
  - vm_compute. reflexivity.
  - reflexivity.
  - reflexivity.
  - vm_compute. reflexivity.
  - reflexivity.
Defined.


(** * Repairing parent chains *)
Section Repair.

Lemma find_orphaned_messages_elem era_id db o :
  o ∈ find_orphaned_messages era_id db <->
  Orphan.heap o ∈ DB.heaps db
  /\ ContextHeap.type (Orphan.heap o) = FRESH
  /\ in_era era_id (Orphan.heap o) = true
  /\ first (order_by_message_number
              (heap_messages (ContextHeap.id (Orphan.heap o)) db))
     = Some (Orphan.message o)
  /\ Message.parent (Orphan.message o) = None
  /\ Message.is_continuation_message (Orphan.message o) = false
  /\ Orphan.looking_for o = Message.looking_for_parent_id (Orphan.message o).
Proof.
  unfold find_orphaned_messages. rewrite list_elem_of_omap. split.
  - intros (heap & Hheap & Ho). apply list_elem_of_filter in Hheap as [[Ht He] Hin].
    destruct (first _) as [first_msg|] eqn:Hfirst; [|done].
    case_bool_decide as Hp; [|done].
    destruct (Message.is_continuation_message first_msg) eqn:Hc; [done|].
    injection Ho as <-. done.
  - intros (Hin & Ht & He & Hfirst & Hp & Hc & Hl). exists (Orphan.heap o).
    split; [by apply list_elem_of_filter|].
    rewrite Hfirst, bool_decide_eq_true_2, Hc by done.
    destruct o; simpl in *. by subst.
Qed.

Lemma first_in {A} (l : list A) x : first l = Some x -> x ∈ l.
Proof. destruct l; [done|]. intros [= ->]. left. Qed.

Lemma orphan_stored era_id db o :
  o ∈ find_orphaned_messages era_id db -> Orphan.message o ∈ DB.messages db.
Proof.
  intros (_ & _ & _ & Hfirst%first_in & _)%find_orphaned_messages_elem.
  rewrite order_by_message_number_perm in Hfirst.
  by apply list_elem_of_filter in Hfirst as [_ ?].
Qed.

(** What a link of the plan says. *)
Lemma repair_link_planned orphaned index db msg p heap :
  RepairLink msg p heap ∈ create_repair_plan orphaned index db ->
  (exists o, o ∈ orphaned /\ Orphan.message o = msg /\ Orphan.heap o = heap)
  /\ is_Some (get_message p db).
Proof.
  unfold create_repair_plan. rewrite list_elem_of_omap.
  intros (o & Ho & Hplan).
  destruct (match Orphan.looking_for o with Some _ => _ | None => _ end)
    as [parent_uuid|]; [|done].
  cbn [mbind option_bind] in Hplan.
  destruct (get_message parent_uuid db) as [parent|] eqn:Hget.
  - injection Hplan as <- <- <-. split; [by exists o|]. by rewrite Hget.
  - by destruct (index !! parent_uuid).
Qed.

End Repair.

(** X24.  An orphan whose parent has arrived is planned as a link.  When a
    FRESH heap of the era opens with a message that has no parent, is not a
    continuation message and waits for a parent ([looking_for_parent_id])
    that is stored by now, the plan made from [find_orphaned_messages] holds
    the link of that message to that parent, whatever the JSONL index
    holds. *)
Theorem X24_awaited_parent_is_planned era_id index db heap msg p parent :
  heap ∈ DB.heaps db ->
  ContextHeap.type heap = FRESH ->
  in_era era_id heap = true ->
  first (order_by_message_number (heap_messages (ContextHeap.id heap) db)) = Some msg ->
  Message.parent msg = None ->
  Message.is_continuation_message msg = false ->
  Message.looking_for_parent_id msg = Some p ->
  get_message p db = Some parent ->
  RepairLink msg p heap
    ∈ create_repair_plan (find_orphaned_messages era_id db) index db.
Proof.
  intros Hin Ht He Hfirst Hp Hc Hl Hget.
  unfold create_repair_plan. apply list_elem_of_omap.
  exists (Orphan.mk msg heap (Some p)). split.
  - apply find_orphaned_messages_elem. by repeat split.
  - cbn. by rewrite Hget.
Qed.

Lemma X24_awaited_parent_is_planned_witness :
  RepairLink (Message.with_looking_for_parent_id (Some 3%N)
                (plain 11 (Some 1%Z) (Some 200%N) None))
             3 (ContextHeap.mk 200 7 FRESH None)
    ∈ create_repair_plan (find_orphaned_messages (Some 7%N) repair_example_db)
        ∅ repair_example_db.
Proof.
  apply (X24_awaited_parent_is_planned (Some 7%N) ∅ repair_example_db _ _ _
           (plain 3 (Some 3%Z) (Some 100%N) (Some 2%N))).
  - right. left.
  - reflexivity.
  - reflexivity.
  - reflexivity.
  - reflexivity.
  - reflexivity.
  - reflexivity.
  - reflexivity.
Defined.

(** X25.  A link of the plan repairs its orphan.  For a link that the plan
    made from [find_orphaned_messages] holds, [set_parent_id] (what
    [execute_repairs] calls for it) finds the parent: the message is saved
    with that parent, it keeps its heap and its ordinal as every message
    does, and [find_orphaned_messages] does not report it again. *)
Theorem X25_planned_link_repairs era_id index db msg p heap :
  unique_ids db ->
  RepairLink msg p heap
    ∈ create_repair_plan (find_orphaned_messages era_id db) index db ->
  number_taken msg db = false ->
  exists msg' db',
    set_parent_id msg p db = Ok (msg', db')
    /\ Message.parent msg' = Some p
    /\ get_message (Message.id msg) db' = Some msg'
    /\ map placement (DB.messages db') = map placement (DB.messages db)
    /\ DB.heaps db' = DB.heaps db
    /\ forall o, o ∈ find_orphaned_messages era_id db' ->
         Message.id (Orphan.message o) ≠ Message.id msg.
Proof.
  intros Huniq Hplan Hfree.
  apply repair_link_planned in Hplan as [(o & Ho & <- & _) [parent Hparent]].
  pose proof (orphan_stored era_id db o Ho) as Hstored.
  destruct (get_message_Some _ _ _ Hparent) as [_ Hpid].
  set (msg := Orphan.message o) in *.
  set (msg' := Message.with_parent (Some (Message.id parent)) msg).
  assert (get_message (Message.id msg) db = Some msg) as Hget
    by (by apply get_message_in).
  exists msg', (DB.with_messages (replace_message msg' (DB.messages db)) db).
  split; [|split; [by rewrite <-Hpid|split; [|split; [|split; [by destruct db|]]]]].
  - unfold set_parent_id. rewrite Hparent. fold msg'. unfold save_message.
    rewrite (number_taken_ext msg msg') by done. rewrite Hfree.
    change (Message.id msg') with (Message.id msg). by rewrite Hget.
  - unfold get_message in *. destruct db as [hs ms cs ss].
    cbn [DB.messages DB.with_messages] in *.
    by apply (find_replace_message msg' (Message.id msg) ms msg).
  - destruct db as [hs ms cs ss]. cbn [DB.messages DB.with_messages] in *.
    apply replace_message_placement. intros x Hx Hid.
    by rewrite (same_id_same_row ms x msg Huniq Hx Hstored Hid).
  - intros o' Ho' Hid.
    pose proof (orphan_stored _ _ _ Ho') as Hin.
    apply find_orphaned_messages_elem in Ho' as (_ & _ & _ & _ & Hnone & _).
    destruct db as [hs ms cs ss]. cbn [DB.messages DB.with_messages] in *.
    rewrite (replace_message_rows msg' ms _ Hin Hid) in Hnone. done.
Qed.

Lemma X25_planned_link_repairs_witness :
  exists msg' db',
    set_parent_id (Message.with_looking_for_parent_id (Some 3%N)
                     (plain 11 (Some 1%Z) (Some 200%N) None)) 3 repair_example_db
    = Ok (msg', db')
    /\ Message.parent msg' = Some 3%N
    /\ get_message 11 db' = Some msg'
    /\ map placement (DB.messages db') = map placement (DB.messages repair_example_db)
    /\ DB.heaps db' = DB.heaps repair_example_db
    /\ forall o, o ∈ find_orphaned_messages (Some 7%N) db' ->
         Message.id (Orphan.message o) ≠ 11%N.
Proof.
  apply (X25_planned_link_repairs (Some 7%N) ∅ repair_example_db
           (Message.with_looking_for_parent_id (Some 3%N)
              (plain 11 (Some 1%Z) (Some 200%N) None))
           3 (ContextHeap.mk 200 7 FRESH None)).
  - apply (bool_decide_unpack _). vm_compute. exact I.
  - apply list_elem_of_omap.
    exists (Orphan.mk (Message.with_looking_for_parent_id (Some 3%N)
                         (plain 11 (Some 1%Z) (Some 200%N) None))
                      (ContextHeap.mk 200 7 FRESH None) (Some 3%N)).
    split; [|reflexivity].
    apply list_elem_of_omap. exists (ContextHeap.mk 200 7 FRESH None).
    split; [|reflexivity]. apply list_elem_of_filter. split; [done|]. right. left.
  - reflexivity.
Defined.


(** * Whitespace runs and retries *)

Section WhitespaceRuns.
Import Retry.

Lemma list_ascii_of_string_append (s t : string) :
  list_ascii_of_string (s ++ t)%string
  = list_ascii_of_string s ++ list_ascii_of_string t.
Proof. induction s as [|a s IH]; simpl; [done|]. by rewrite IH. Qed.

Lemma lstrip_ws_app ws v :
  forallb isspace ws = true -> lstrip (ws ++ v) = lstrip v.
Proof.
  induction ws as [|a ws IH]; simpl; [done|].
  intros [Ha Hws]%andb_prop. rewrite Ha. by apply IH.
Qed.

Lemma lstrip_app u x : lstrip u <> [] -> lstrip (u ++ x) = lstrip u ++ x.
Proof.
  induction u as [|a u IH]; simpl; [done|].
  destruct (isspace a); [exact IH|done].
Qed.

Lemma lstrip_nil u : lstrip u = [] -> forallb isspace u = true.
Proof.
  induction u as [|a u IH]; simpl; [done|].
  destruct (isspace a); [exact IH|done].
Qed.

Lemma forallb_rev {A} (f : A -> bool) l : forallb f (rev l) = forallb f l.
Proof.
  induction l as [|a l IH]; simpl; [done|].
  rewrite forallb_app, IH. simpl. rewrite andb_true_r. apply andb_comm.
Qed.

(** A run of whitespace in front leaves one space, or nothing when it
    continues a run. *)
Lemma sub_ws_run ws v b :
  ws <> [] -> forallb isspace ws = true ->
  sub_ws b (ws ++ v) = (if b then [] else [" "%char]) ++ sub_ws true v.
Proof.
  revert b. induction ws as [|a ws IH]; intros b Hne Hws; [done|].
  simpl in Hws. apply andb_prop in Hws as [Ha Hws]. simpl. rewrite Ha.
  destruct ws as [|a' ws]; [by destruct b|].
  rewrite (IH true); [|done..]. by destruct b.
Qed.

Lemma sub_ws_app x : forall b,
  exists b', forall y, sub_ws b (x ++ y) = sub_ws b x ++ sub_ws b' y.
Proof.
  induction x as [|a x IH]; intros b; simpl; [by exists b|].
  destruct (isspace a).
  - destruct (IH true) as [b' Hb']. exists b'. intros y. rewrite Hb'.
    by destruct b.
  - destruct (IH false) as [b' Hb']. exists b'. intros y. by rewrite Hb'.
Qed.

(** What [strip] and the substitution leave of [u ++ ws ++ v] does not
    depend on the whitespace run [ws], as long as there is one. *)
Lemma sub_ws_strip_run u v ws1 ws2 :
  ws1 <> [] -> ws2 <> [] ->
  forallb isspace ws1 = true -> forallb isspace ws2 = true ->
  sub_ws false (strip (u ++ ws1 ++ v)) = sub_ws false (strip (u ++ ws2 ++ v)).
Proof.
  intros Hn1 Hn2 Hw1 Hw2. unfold strip.
  destruct (lstrip u) as [|a0 u'] eqn:Hu.
  { apply lstrip_nil in Hu.
    by rewrite !(lstrip_ws_app u), !(lstrip_ws_app _ v). }
  rewrite !(lstrip_app u), Hu by (by rewrite Hu).
  set (w := a0 :: u'). rewrite !(rev_app_distr w), !rev_app_distr, <-!app_assoc.
  destruct (lstrip (rev v)) as [|a1 v'] eqn:Hv.
  { apply lstrip_nil in Hv.
    rewrite !(lstrip_ws_app (rev v)) by done.
    by rewrite !(lstrip_ws_app (rev _) (rev w)) by (by rewrite forallb_rev). }
  rewrite !(lstrip_app (rev v)), Hv by (by rewrite Hv).
  rewrite !rev_app_distr, !rev_involutive, <-!app_assoc.
  destruct (sub_ws_app w false) as [b' Hb']. rewrite !Hb'.
  by rewrite !sub_ws_run.
Qed.

End WhitespaceRuns.

(** X26.  [RetryDetector.normalize_content] does not see how long a run of
    whitespace is or what it is made of: two contents that differ in one
    run of whitespace, not empty on either side, have the same normal form.
    So after a real message of a sender, the same text with that run wrapped
    differently is flagged as a retry by [is_retry], whatever the detector
    held before. *)
Theorem X26_is_retry_whitespace_runs (u v ws1 ws2 : string) :
  ws1 <> ""%string -> ws2 <> ""%string ->
  forallb Retry.isspace (list_ascii_of_string ws1) = true ->
  forallb Retry.isspace (list_ascii_of_string ws2) = true ->
  Retry.normalize_content (u ++ ws1 ++ v)%string
  = Retry.normalize_content (u ++ ws2 ++ v)%string
  /\ forall (d : Retry.detector) sender,
       fst (Retry.is_retry
              (Retry.feed d (sender, (u ++ ws1 ++ v)%string, false))
              sender (u ++ ws2 ++ v)%string false) = true.
Proof.
  intros Hn1 Hn2 Hw1 Hw2.
  assert (Retry.normalize_content (u ++ ws1 ++ v)%string
          = Retry.normalize_content (u ++ ws2 ++ v)%string) as Heq.
  { unfold Retry.normalize_content. rewrite !list_ascii_of_string_append.
    f_equal. apply sub_ws_strip_run; [| |done..].
    - by destruct ws1.
    - by destruct ws2. }
  split; [exact Heq|]. intros d sender.
  apply is_retry_true_iff.
  pose proof (feed_lookup d sender (u ++ ws1 ++ v)%string false sender) as Hf.
  rewrite String.eqb_refl in Hf. rewrite Hf. simpl. by rewrite Heq.
Qed.

Lemma X26_is_retry_whitespace_runs_witness :
  let wrapped := String "010" "  " in
  Retry.normalize_content "fix the bug" = "fix the bug"
  /\ Retry.normalize_content ("fix the" ++ wrapped ++ "bug") = "fix the bug"
  /\ fst (Retry.is_retry (Retry.feed Retry.init ("A", "fix the bug", false))
            "A" ("fix the" ++ wrapped ++ "bug") false) = true.
Proof.
  intros wrapped.
  destruct (X26_is_retry_whitespace_runs "fix the" "bug" " " wrapped)
    as [Heq Hretry]; [done|done|reflexivity|reflexivity|].
  split; [reflexivity|]. split; [by rewrite <-Heq|].
  apply (Hretry Retry.init "A").
Defined.
